(** * Verve: field lifecycle and model change tracking

    A shallow embedding of the runtime core of the Verve domain-model
    library (src/field/core/Field.ts, src/field/core/utils.ts, the [Model]
    base class, [FieldInitializer], [ValueInitializer],
    [ValidationInitializer], [make] and [from], and the
    [AssociationRegistry]) together with the properties of its
    specification that concern field access, nullability, generation,
    validation, change tracking and association checks, and with further
    properties of the same code: round trips of writes, invariants of the
    change log, emptiness and presence, construction and the baseline
    snapshot.

    Modelling conventions.
    - JavaScript values are [value]s; arrays and plain objects live in a
      [heap] and are denoted by references, so that identity ([===] on
      objects) and in-place mutation ([Array.prototype.sort]) are visible.
      A number is [NaN], an infinity, an integer below 10^21 in
      magnitude, or any other finite number, which is given by its string
      form; [-0] is not told apart from [0], which no operation embedded
      here does either. Dates, functions and nested model instances are
      outside the value universe. A string is the sequence of its code
      units, each below 256.
    - A plain object is an insertion-ordered association list ([obj]);
      only own data properties are modelled (no prototype members).
    - The private slots of a model instance ([#state], [#initialState],
      [#changeLog], [#initializer]), its own properties and its resolved
      context form the record [Model]; the table of bound fields is passed
      next to it, as the closures of [BoundField] do.
    - User callbacks are functions of what they may read: an access rule
      or a validator sees the heap, the model and the value, and answers
      [None] when it throws; a generator is a thunk.
    - A computation that can throw returns a [completion]; one that
      recurses through the heap takes fuel and returns [None] when the fuel
      runs out or a reference dangles.
    - The [timestamp] of a change-log entry and the rendered text of error
      messages play no role in any decision and are left out.
    - The table of bound fields is a parameter of every operation that
      reads it, and each operation is embedded with the lookup it
      performs: the methods of [Model] index the table by the key they are
      given, [ValidationInitializer] by [makeFieldInstanceKey] of the schema
      key, and [ValueInitializer] strips the dollar sign from the table's
      keys. Properties that involve a table state what they need of it. *)

From Stdlib Require Import ZArith String Ascii List Bool Lia Permutation.
From stdpp Require Import base list strings pretty.
Import ListNotations.
Local Open Scope string_scope.
Local Open Scope Z_scope.
Local Open Scope nat_scope.
Local Open Scope list_scope.

(** ** Values and the heap *)

Abbreviation loc := nat.

(** The numbers of the value universe. An integer below 10^21 in
    magnitude is [Finite]; any other finite number (a fraction, or a
    number of magnitude 10^21 or more) is given by its string form, which
    determines it: [Decimal "1.5"], [Decimal "1e+21"]. A [Decimal] whose
    text is not the string form of such a number denotes none. *)
Inductive number : Type :=
| Finite (n : Z)
| NaN
| Infinity (negative : bool)
| Decimal (text : string).

Inductive value : Type :=
| VUndefined
| VNull
| VBool (b : bool)
| VNum (n : number)
| VStr (s : string)
| VRef (l : loc).

Definition obj := list (string * value).

Inductive cell : Type :=
| CArr (items : list value)
| CObj (props : obj).

Abbreviation heap := (list cell).

(** [typeof v] *)
Definition typeof (v : value) : string :=
  match v with
  | VUndefined => "undefined"
  | VNull => "object"
  | VBool _ => "boolean"
  | VNum _ => "number"
  | VStr _ => "string"
  | VRef _ => "object"
  end.

(** [x === y] on numbers: [NaN] is equal to nothing, itself included. *)
Definition number_eq (x y : number) : bool :=
  match x, y with
  | Finite a, Finite b => Z.eqb a b
  | Infinity s, Infinity t => Bool.eqb s t
  | Decimal s, Decimal t => String.eqb s t
  | _, _ => false
  end.

(** [a === b] *)
Definition strict_eq (a b : value) : bool :=
  match a, b with
  | VUndefined, VUndefined => true
  | VNull, VNull => true
  | VBool x, VBool y => Bool.eqb x y
  | VNum x, VNum y => number_eq x y
  | VStr x, VStr y => String.eqb x y
  | VRef x, VRef y => Nat.eqb x y
  | _, _ => false
  end.

(** ToBoolean, as applied by [if (v)], [!v] and [Array.prototype.every]. *)
Definition truthy (v : value) : bool :=
  match v with
  | VUndefined | VNull => false
  | VBool b => b
  | VNum (Finite n) => negb (Z.eqb n 0)
  | VNum NaN => false
  | VNum (Infinity _) => true
  | VNum (Decimal _) => true
  | VStr s => negb (String.eqb s "")
  | VRef _ => true
  end.

Definition is_undefined (v : value) : bool :=
  match v with VUndefined => true | _ => false end.

Definition is_null (v : value) : bool :=
  match v with VNull => true | _ => false end.

(** [Array.isArray(v)] *)
Definition isArray (h : heap) (v : value) : bool :=
  match v with
  | VRef l => match h !! l with Some (CArr _) => true | _ => false end
  | _ => false
  end.

(** ** Plain objects as ordered association lists *)

Fixpoint obj_lookup (o : obj) (k : string) : option value :=
  match o with
  | [] => None
  | (k', v) :: o' => if String.eqb k' k then Some v else obj_lookup o' k
  end.

(** [o[k]]: reading an absent property gives [undefined]. *)
Definition obj_get (o : obj) (k : string) : value :=
  match obj_lookup o k with Some v => v | None => VUndefined end.

(** [o[k] = v]: overwrite in place, or append a new last property. *)
Fixpoint obj_set (o : obj) (k : string) (v : value) : obj :=
  match o with
  | [] => [(k, v)]
  | (k', v') :: o' =>
      if String.eqb k' k then (k', v) :: o' else (k', v') :: obj_set o' k v
  end.

(** [delete o[k]] *)
Definition obj_delete (o : obj) (k : string) : obj :=
  List.filter (fun p => negb (String.eqb (fst p) k)) o.

(** [Object.keys(o)] *)
Definition obj_keys (o : obj) : list string := map fst o.

(** [keys.includes(k)] *)
Definition includes (keys : list string) (k : string) : bool :=
  existsb (String.eqb k) keys.

(** ** Errors *)

Inductive ErrorCode : Type :=
| FIELD_NOT_READABLE
| FIELD_NOT_WRITABLE
| FIELD_NOT_INITIALIZED
| FIELD_NOT_NULLABLE
| FIELD_VALIDATORS_FAILED
| FIELD_VALIDATOR_FAILED
| FIELD_SET_ERROR
| FIELD_UNSET_ERROR
| FIELD_NO_GENERATOR
| FIELD_ALREADY_GENERATED
| FIELD_CANNOT_GENERATE_EXISTING
| FIELD_NO_COMPUTE
| ID_FIELD_CANNOT_BE_EXCLUDED
| MODEL_FIELD_VALIDATION_FAILED
| ASSOCIATION_VALIDATOR_NOT_FOUND
| ASSOCIATION_INVALID.

Definition ErrorCode_eqb (a b : ErrorCode) : bool :=
  match a, b with
  | FIELD_NOT_READABLE, FIELD_NOT_READABLE
  | FIELD_NOT_WRITABLE, FIELD_NOT_WRITABLE
  | FIELD_NOT_INITIALIZED, FIELD_NOT_INITIALIZED
  | FIELD_NOT_NULLABLE, FIELD_NOT_NULLABLE
  | FIELD_VALIDATORS_FAILED, FIELD_VALIDATORS_FAILED
  | FIELD_VALIDATOR_FAILED, FIELD_VALIDATOR_FAILED
  | FIELD_SET_ERROR, FIELD_SET_ERROR
  | FIELD_UNSET_ERROR, FIELD_UNSET_ERROR
  | FIELD_NO_GENERATOR, FIELD_NO_GENERATOR
  | FIELD_ALREADY_GENERATED, FIELD_ALREADY_GENERATED
  | FIELD_CANNOT_GENERATE_EXISTING, FIELD_CANNOT_GENERATE_EXISTING
  | FIELD_NO_COMPUTE, FIELD_NO_COMPUTE
  | ID_FIELD_CANNOT_BE_EXCLUDED, ID_FIELD_CANNOT_BE_EXCLUDED
  | MODEL_FIELD_VALIDATION_FAILED, MODEL_FIELD_VALIDATION_FAILED
  | ASSOCIATION_VALIDATOR_NOT_FOUND, ASSOCIATION_VALIDATOR_NOT_FOUND
  | ASSOCIATION_INVALID, ASSOCIATION_INVALID => true
  | _, _ => false
  end.

(** The structured parameters of an error: [{ field, model, validator }]. *)
Record ErrorParams : Type := mkParams {
  p_field : string;
  p_model : string;
  p_validator : string;
}.

(** [VerveErrorList]: [add] appends one entry, [merge] appends a list. *)
Definition VerveErrorList := list (ErrorCode * ErrorParams).

Definition errors_add (errors : VerveErrorList) (code : ErrorCode)
    (params : ErrorParams) : VerveErrorList :=
  errors ++ [(code, params)].

Definition errors_merge (errors other : VerveErrorList) : VerveErrorList :=
  errors ++ other.

Definition errors_isPresent (errors : VerveErrorList) : bool :=
  Nat.ltb 0 (length errors).

Definition errors_contains (errors : VerveErrorList) (code : ErrorCode) : bool :=
  existsb (fun e => ErrorCode_eqb (fst e) code) errors.

(** What a [throw] carries: a [VerveError] (its code, its parameters and,
    for the two aggregate codes, the errors whose messages it joins), a
    [TypeError] raised by the language itself, or whatever a user
    callback threw. *)
Inductive error : Type :=
| VerveError (code : ErrorCode) (params : ErrorParams) (errors : VerveErrorList)
| TypeError
| CallbackError.

Inductive completion (A : Type) : Type :=
| Normal (a : A)
| Abrupt (e : error).
Arguments Normal {A} a.
Arguments Abrupt {A} e.

Definition is_normal {A} (c : completion A) : bool :=
  match c with Normal _ => true | Abrupt _ => false end.

(** [c] throws a [VerveError] with this code. *)
Definition throws_code {A} (c : completion A) (code : ErrorCode) : bool :=
  match c with
  | Abrupt (VerveError code' _ _) => ErrorCode_eqb code' code
  | _ => false
  end.

(** ** Model instances *)

Inductive Initializer : Type := InitMake | InitFrom.

(** One change-log entry, [{ field, currentValue, previousValue }]. *)
Record ModelChangeLog : Type := mkChange {
  field : string;
  currentValue : value;
  previousValue : value;
}.

(** An own data property of the instance; every property this code
    defines is configurable. *)
Record prop : Type := mkProp {
  p_value : value;
  p_writable : bool;
  p_enumerable : bool;
}.

Record Model : Type := mkModel {
  initializer : Initializer;
  state : obj;
  initialState : obj;
  changeLog : list ModelChangeLog;
  own : list (string * prop);
  context : value;
}.

Definition with_state (m : Model) (s : obj) : Model :=
  mkModel (initializer m) s (initialState m) (changeLog m) (own m) (context m).

Definition with_initialState (m : Model) (s : obj) : Model :=
  mkModel (initializer m) (state m) s (changeLog m) (own m) (context m).

Definition with_changeLog (m : Model) (l : list ModelChangeLog) : Model :=
  mkModel (initializer m) (state m) (initialState m) l (own m) (context m).

Definition with_own (m : Model) (o : list (string * prop)) : Model :=
  mkModel (initializer m) (state m) (initialState m) (changeLog m) o (context m).

Definition with_initializer (m : Model) (i : Initializer) : Model :=
  mkModel i (state m) (initialState m) (changeLog m) (own m) (context m).

(** A freshly constructed instance, before any initializer ran. *)
Definition new_Model (ctx : value) : Model :=
  mkModel InitMake [] [] [] [] ctx.

(** [isNew()], [isExisting()], [getContext()] *)
Definition isNew (m : Model) : bool :=
  match initializer m with InitMake => true | InitFrom => false end.

Definition isExisting (m : Model) : bool :=
  match initializer m with InitFrom => true | InitMake => false end.

Definition getContext (m : Model) : value := context m.

(** *** Own properties of the instance *)

Fixpoint own_lookup (o : list (string * prop)) (k : string) : option prop :=
  match o with
  | [] => None
  | (k', p) :: o' => if String.eqb k' k then Some p else own_lookup o' k
  end.

(** [Object.defineProperty(model, k, { value, writable, enumerable,
    configurable: true })]: every property here is configurable, so a
    redefinition always succeeds. *)
Fixpoint defineProperty (o : list (string * prop)) (k : string) (p : prop)
    : list (string * prop) :=
  match o with
  | [] => [(k, p)]
  | (k', p') :: o' =>
      if String.eqb k' k then (k', p) :: o' else (k', p') :: defineProperty o' k p
  end.

(** [Object.assign(model, { [k]: v })]: an ordinary [[Set]] that throws
    on a non-writable own property, keeps the attributes of a writable one
    and creates a missing one writable and enumerable. *)
Definition assign_own (o : list (string * prop)) (k : string) (v : value)
    : option (list (string * prop)) :=
  match own_lookup o k with
  | Some p =>
      if p_writable p
      then Some (defineProperty o k (mkProp v true (p_enumerable p)))
      else None
  | None => Some (defineProperty o k (mkProp v true true))
  end.

(** [delete model[k]] *)
Definition delete_own (o : list (string * prop)) (k : string)
    : list (string * prop) :=
  List.filter (fun p => negb (String.eqb (fst p) k)) o.

(** [model[k]] for a data property of the instance. *)
Definition own_get (o : list (string * prop)) (k : string) : value :=
  match own_lookup o k with Some p => p_value p | None => VUndefined end.

(** *** The change log *)

(** [Model[MODEL_CHANGE_LOG](change)]: a change to [undefined] erases
    every entry of that field, any other change is appended. *)
Definition MODEL_CHANGE_LOG (m : Model) (change : ModelChangeLog) : Model :=
  if is_undefined (currentValue change)
  then with_changeLog m
         (List.filter (fun log => negb (String.eqb (field log) (field change)))
                 (changeLog m))
  else with_changeLog m (changeLog m ++ [change]).

(** [getChangeLog()]: a reversed copy, newest entry first. *)
Definition getChangeLog (m : Model) : list ModelChangeLog := rev (changeLog m).

(** The loop of [getChanges()], with its two accumulators. *)
Fixpoint getChanges_loop (initial : obj) (logs : list ModelChangeLog)
    (changes : obj) (changedFields : list string) : obj :=
  match logs with
  | [] => changes
  | log :: rest =>
      if includes changedFields (field log)
      then getChanges_loop initial rest changes changedFields
      else if strict_eq (obj_get initial (field log)) (currentValue log)
      then getChanges_loop initial rest changes (changedFields ++ [field log])
      else getChanges_loop initial rest
             (obj_set changes (field log) (currentValue log))
             (changedFields ++ [field log])
  end.

Definition getChanges (m : Model) : obj :=
  getChanges_loop (initialState m) (getChangeLog m) [] [].

(** ** Fields *)

(** The field classes; [instanceof IdField] is a test on this tag. *)
Inductive FieldKind : Type :=
| IdField | BoolField | TextField | NumberField
| DateField | ListField | RecordField | OptionField.

Definition is_IdField (k : FieldKind) : bool :=
  match k with IdField => true | _ => false end.

Record FieldMetadata : Type := mkMetadata {
  md_model : string;
  md_name : string;
}.

(** [FieldAccessRule]: a boolean, or a predicate over
    [(context, model, value)] whose result is used for its truthiness and
    which may throw. *)
Inductive FieldAccessRule : Type :=
| RuleBool (b : bool)
| RuleFn (fn : heap -> value -> Model -> value -> option value).

(** [FieldValidator], already bound to its model by [toField]; the
    [__lazy] mark is the flag [v_lazy]. *)
Record FieldValidator : Type := mkValidator {
  v_name : string;
  v_lazy : bool;
  v_run : heap -> Model -> value -> option value;
}.

Record FieldGenerator : Type := mkGenerator {
  g_lazy : bool;
  g_run : unit -> value;
}.

Record FieldCompute : Type := mkCompute {
  c_lazy : bool;
  c_run : heap -> Model -> value;
}.

Record FieldOptions : Type := mkOptions {
  nullable : bool;
  readable : option FieldAccessRule;
  writable : option FieldAccessRule;
  default : value;
  compute : option FieldCompute;
  generator : option FieldGenerator;
  validators : list FieldValidator;
  associate : option (string * string);
}.

Record Field : Type := mkField {
  kind : FieldKind;
  metadata : FieldMetadata;
  options : FieldOptions;
}.

Definition params_of (f : Field) (key : string) : ErrorParams :=
  mkParams key (md_model (metadata f)) "".

(** [isEagerFieldGenerator], [isEagerFieldValidator] *)
Definition isEagerFieldGenerator (g : FieldGenerator) : bool := negb (g_lazy g).
Definition isEagerFieldValidator (v : FieldValidator) : bool := negb (v_lazy v).

(** [Field.getEagerGenerator(options)] *)
Definition getEagerGenerator (o : FieldOptions) : option FieldGenerator :=
  match generator o with
  | Some g => if isEagerFieldGenerator g then Some g else None
  | None => None
  end.

(** [Field.getEagerValidators(options)] *)
Definition getEagerValidators (o : FieldOptions) : list FieldValidator :=
  List.filter (fun v => isEagerFieldValidator v) (validators o).

Section FieldMethods.

Variable f : Field.
Variable h : heap.

(** [unsafeGet(model, key)] *)
Definition Field_unsafeGet (m : Model) (key : string) : value :=
  obj_get (state m) key.

Definition apply_rule (rule : option FieldAccessRule) (m : Model)
    (v : value) : bool :=
  match rule with
  | Some (RuleFn fn) =>
      match fn h (getContext m) m v with
      | Some r => truthy r
      | None => false
      end
  | Some (RuleBool b) => b
  | None => true
  end.

(** [isReadable(model, key)], [isWritable(model, key)] *)
Definition Field_isReadable (m : Model) (key : string) : bool :=
  apply_rule (readable (options f)) m (Field_unsafeGet m key).

Definition Field_isWritable (m : Model) (key : string) : bool :=
  apply_rule (writable (options f)) m (Field_unsafeGet m key).

(** The loop of [validate]: one [FIELD_VALIDATOR_FAILED] per validator
    whose result is not exactly [true]. *)
Fixpoint validate_loop (vs : list FieldValidator) (m : Model) (key : string)
    (v : value) (errors : VerveErrorList) : completion VerveErrorList :=
  match vs with
  | [] => Normal errors
  | validator :: rest =>
      match v_run validator h m v with
      | None => Abrupt CallbackError
      | Some result =>
          if negb (strict_eq result (VBool true))
          then validate_loop rest m key v
                 (errors_add errors FIELD_VALIDATOR_FAILED
                    (mkParams key (md_model (metadata f))
                       (if String.eqb (v_name validator) ""
                        then "anonymous" else v_name validator)))
          else validate_loop rest m key v errors
      end
  end.

(** [validate(model, key)] *)
Definition Field_validate (m : Model) (key : string)
    : completion VerveErrorList :=
  let v := Field_unsafeGet m key in
  if is_undefined v then Normal []
  else validate_loop (validators (options f)) m key v [].

(** [get(model, key)] *)
Definition Field_get (m : Model) (key : string) : completion value :=
  if negb (Field_isReadable m key)
  then Abrupt (VerveError FIELD_NOT_READABLE (params_of f key) [])
  else
    let v := obj_get (state m) key in
    if is_undefined v
    then Abrupt (VerveError FIELD_NOT_INITIALIZED (params_of f key) [])
    else
      match Field_validate m key with
      | Abrupt e => Abrupt e
      | Normal errors =>
          if errors_isPresent errors
          then Abrupt (VerveError FIELD_VALIDATORS_FAILED (params_of f key) errors)
          else Normal v
      end.

(** [set(model, key, value)]. The log entry and the state are written
    before [Object.assign], so a [FIELD_SET_ERROR] leaves both behind. *)
Definition Field_set (m : Model) (key : string) (v : value)
    : completion unit * Model :=
  if negb (Field_isWritable m key)
  then (Abrupt (VerveError FIELD_NOT_WRITABLE (params_of f key) []), m)
  else if is_null v && negb (nullable (options f))
  then (Abrupt (VerveError FIELD_NOT_NULLABLE (params_of f key) []), m)
  else
    let m1 := MODEL_CHANGE_LOG m (mkChange key v (obj_get (state m) key)) in
    let m2 := with_state m1 (obj_set (state m1) key v) in
    match assign_own (own m2) key v with
    | Some o => (Normal tt, with_own m2 o)
    | None => (Abrupt (VerveError FIELD_SET_ERROR (params_of f key) []), m2)
    end.

(** [unset(model, key)]. Erasing log entries and deleting a configurable
    property cannot throw, so the [catch] branch is never taken. *)
Definition Field_unset (m : Model) (key : string) : Model :=
  let m1 := MODEL_CHANGE_LOG m (mkChange key VUndefined (obj_get (state m) key)) in
  let m2 := with_state m1 (obj_delete (state m1) key) in
  with_own m2 (delete_own (own m2) key).

(** The callback of [validators.every(...)] in [isValid]. *)
Fixpoint every_validator (vs : list FieldValidator) (m : Model) (v : value)
    : completion bool :=
  match vs with
  | [] => Normal true
  | validator :: rest =>
      match v_run validator h m v with
      | None => Abrupt CallbackError
      | Some result =>
          if truthy result then every_validator rest m v else Normal false
      end
  end.

(** [isValid(model, key)] *)
Definition Field_isValid (m : Model) (key : string) : completion bool :=
  every_validator (validators (options f)) m (Field_unsafeGet m key).

(** [generate(model, key)] *)
Definition Field_generate (m : Model) (key : string)
    : completion unit * Model :=
  match generator (options f) with
  | None => (Abrupt (VerveError FIELD_NO_GENERATOR (params_of f key) []), m)
  | Some g =>
      let v := Field_unsafeGet m key in
      if truthy v
      then (Abrupt (VerveError FIELD_ALREADY_GENERATED (params_of f key) []), m)
      else if isExisting m
      then (Abrupt (VerveError FIELD_CANNOT_GENERATE_EXISTING (params_of f key) []), m)
      else Field_set m key (g_run g tt)
  end.

(** [compute(model, key)] *)
Definition Field_compute (m : Model) (key : string)
    : completion value * Model :=
  match compute (options f) with
  | None => (Abrupt (VerveError FIELD_NO_COMPUTE (params_of f key) []), m)
  | Some c =>
      match Field_set m key (c_run c h m) with
      | (Abrupt e, m') => (Abrupt e, m')
      | (Normal _, m') => (Field_get m' key, m')
      end
  end.

End FieldMethods.

(** ** Deep comparison (src/field/core/utils.ts) *)

(** Monadic map over a list with an optional result. *)
Fixpoint map_option {A B} (g : A -> option B) (l : list A) : option (list B) :=
  match l with
  | [] => Some []
  | x :: l' =>
      match g x, map_option g l' with
      | Some y, Some ys => Some (y :: ys)
      | _, _ => None
      end
  end.

(** [Array.prototype.join(",")] on already rendered elements. *)
Fixpoint join_comma (parts : list string) : string :=
  match parts with
  | [] => ""
  | [p] => p
  | p :: rest => String.append p (String.append "," (join_comma rest))
  end.

(** ToString on a number. An integer below 10^21 in magnitude renders
    as its decimal numeral; any other finite number is given by its string
    form. A [Finite] of magnitude 10^21 or more denotes no number (its
    string form would be in exponent notation) and has no string form. *)
Definition Number_toString (x : number) : option string :=
  match x with
  | NaN => Some "NaN"
  | Infinity false => Some "Infinity"
  | Infinity true => Some "-Infinity"
  | Finite n => if Z.ltb (Z.abs n) (10 ^ 21) then Some (pretty n) else None
  | Decimal text => Some text
  end.

(** ToString, as the default sort order applies it to the elements of an
    array: a plain object renders as ["[object Object]"], an array as its
    elements joined by commas ([null] and [undefined] elements render
    empty, an array met again inside itself renders empty). *)
Fixpoint ToString (fuel : nat) (stack : list loc) (h : heap) (v : value)
    : option string :=
  match fuel with
  | 0 => None
  | S fuel' =>
      match v with
      | VUndefined => Some "undefined"
      | VNull => Some "null"
      | VBool true => Some "true"
      | VBool false => Some "false"
      | VNum n => Number_toString n
      | VStr s => Some s
      | VRef l =>
          match h !! l with
          | None => None
          | Some (CObj _) => Some "[object Object]"
          | Some (CArr items) =>
              if existsb (Nat.eqb l) stack then Some ""
              else
                match map_option
                        (fun x =>
                           if is_undefined x || is_null x then Some ""
                           else ToString fuel' (l :: stack) h x)
                        items with
                | Some parts => Some (join_comma parts)
                | None => None
                end
          end
      end
  end.

(** Stable insertion of a keyed element: it goes before the first
    element whose key is not smaller. *)
Fixpoint insert_sorted (x : string * value) (l : list (string * value))
    : list (string * value) :=
  match l with
  | [] => [x]
  | y :: l' =>
      if String.ltb (fst y) (fst x) then y :: insert_sorted x l'
      else x :: y :: l'
  end.

Definition sort_keyed (l : list (string * value)) : list (string * value) :=
  fold_right insert_sorted [] l.

(** [items.sort()] with the default comparator: [undefined] elements go
    last, the others are ordered by the code units of their string
    forms, equal ones keeping their order. *)
Definition js_sort (fuel : nat) (h : heap) (items : list value)
    : option (list value) :=
  let defined := List.filter (fun x => negb (is_undefined x)) items in
  let undefineds := List.filter is_undefined items in
  match map_option (ToString fuel [] h) defined with
  | Some keys => Some (map snd (sort_keyed (combine keys defined)) ++ undefineds)
  | None => None
  end.

(** [Object.keys(v)] for an object-typed [v]: [null] throws. *)
Definition own_keys (h : heap) (v : value) : option (completion (list string)) :=
  match v with
  | VNull | VUndefined => Some (Abrupt TypeError)
  | VRef l =>
      match h !! l with
      | Some (CObj props) => Some (Normal (obj_keys props))
      | Some (CArr items) =>
          Some (Normal (map (fun i : nat => pretty i) (seq 0 (length items))))
      | None => None
      end
  | VStr s => Some (Normal (map (fun i : nat => pretty i) (seq 0 (String.length s))))
  | _ => Some (Normal [])
  end.

(** The index an array key denotes, if it is the decimal form of one. *)
Definition array_index (len : nat) (key : string) : option nat :=
  find (fun i : nat => String.eqb (pretty i) key) (seq 0 len).

(** [v[key]] for a value that is neither [null] nor [undefined]. *)
Definition get_prop (h : heap) (v : value) (key : string) : option value :=
  match v with
  | VRef l =>
      match h !! l with
      | Some (CObj props) => Some (obj_get props key)
      | Some (CArr items) =>
          if String.eqb key "length" then Some (VNum (Finite (Z.of_nat (length items))))
          else
            match array_index (length items) key with
            | Some i => Some (nth i items VUndefined)
            | None => Some VUndefined
            end
      | None => None
      end
  | VStr s =>
      if String.eqb key "length" then Some (VNum (Finite (Z.of_nat (String.length s))))
      else
        match array_index (String.length s) key with
        | Some i => Some (VStr (String.substring i 1 s))
        | None => Some VUndefined
        end
  | _ => Some VUndefined
  end.

Definition array_items (h : heap) (v : value) : option (list value) :=
  match v with
  | VRef l => match h !! l with Some (CArr items) => Some items | _ => None end
  | _ => None
  end.

Definition store_items (h : heap) (v : value) (items : list value) : heap :=
  match v with
  | VRef l => <[l := CArr items]> h
  | _ => h
  end.

Section Loops.

Variable objectEqual : heap -> value -> value -> option (completion bool * heap).
Variable arrayEqual : heap -> value -> value -> option (completion bool * heap).

(** The callback of [aKeys.find(...)] run over the keys in order; the
    result is whether a differing key was found. *)
Fixpoint find_diff (h : heap) (a b : value) (keys : list string)
    : option (completion bool * heap) :=
  match keys with
  | [] => Some (Normal false, h)
  | key :: rest =>
      match get_prop h a key, get_prop h b key with
      | Some aValue, Some bValue =>
          if negb (String.eqb (typeof aValue) (typeof bValue))
          then Some (Normal true, h)
          else if isArray h aValue && isArray h bValue
          then
            match arrayEqual h aValue bValue with
            | Some (Normal r, h') =>
                if negb r then Some (Normal true, h') else find_diff h' a b rest
            | other => other
            end
          else if String.eqb (typeof aValue) "object"
                  && String.eqb (typeof bValue) "object"
          then
            match objectEqual h aValue bValue with
            | Some (Normal r, h') =>
                if negb r then Some (Normal true, h') else find_diff h' a b rest
            | other => other
            end
          else if negb (strict_eq aValue bValue)
          then Some (Normal true, h)
          else find_diff h a b rest
      | _, _ => None
      end
  end.

(** The callback of [sortedA.every(...)] run over the indices in order;
    both arrays are read as they are when an index is reached. *)
Fixpoint every_item (h : heap) (sortedA sortedB : value) (indices : list nat)
    : option (completion bool * heap) :=
  match indices with
  | [] => Some (Normal true, h)
  | index :: rest =>
      match array_items h sortedA, array_items h sortedB with
      | Some itemsA, Some itemsB =>
          let item := nth index itemsA VUndefined in
          let other := nth index itemsB VUndefined in
          if negb (String.eqb (typeof item) (typeof other))
          then Some (Normal false, h)
          else if String.eqb (typeof item) "object"
                  && String.eqb (typeof other) "object"
          then
            match objectEqual h item other with
            | Some (Normal r, h') =>
                if r then every_item h' sortedA sortedB rest
                else Some (Normal false, h')
            | other_result => other_result
            end
          else if isArray h item && isArray h other
          then
            match arrayEqual h item other with
            | Some (Normal r, h') =>
                if r then every_item h' sortedA sortedB rest
                else Some (Normal false, h')
            | other_result => other_result
            end
          else if strict_eq item other
          then every_item h sortedA sortedB rest
          else Some (Normal false, h)
      | _, _ => None
      end
  end.

End Loops.

(** [isObjectEqual(a, b)] and [isArrayEqual(a, b)]. The heap is threaded
    through because [isArrayEqual] sorts both of its operands in place. *)
Fixpoint isObjectEqual (fuel : nat) (h : heap) (a b : value) {struct fuel}
    : option (completion bool * heap) :=
  match fuel with
  | 0 => None
  | S fuel' =>
      if negb (String.eqb (typeof a) "object")
         || negb (String.eqb (typeof b) "object")
      then Some (Normal (strict_eq a b), h)
      else
        match own_keys h a with
        | None => None
        | Some (Abrupt e) => Some (Abrupt e, h)
        | Some (Normal aKeys) =>
            match own_keys h b with
            | None => None
            | Some (Abrupt e) => Some (Abrupt e, h)
            | Some (Normal bKeys) =>
                if negb (Nat.eqb (length aKeys) (length bKeys))
                then Some (Normal false, h)
                else
                  match find_diff (isObjectEqual fuel') (isArrayEqual fuel')
                          h a b aKeys with
                  | Some (Normal foundDiff, h') => Some (Normal (negb foundDiff), h')
                  | other => other
                  end
            end
        end
  end
with isArrayEqual (fuel : nat) (h : heap) (a b : value) {struct fuel}
    : option (completion bool * heap) :=
  match fuel with
  | 0 => None
  | S fuel' =>
      match array_items h a, array_items h b with
      | Some itemsA, Some itemsB =>
          if negb (Nat.eqb (length itemsA) (length itemsB))
          then Some (Normal false, h)
          else
            match js_sort fuel' h itemsA with
            | None => None
            | Some sortedA =>
                let h1 := store_items h a sortedA in
                match array_items h1 b with
                | None => None
                | Some itemsB1 =>
                    match js_sort fuel' h1 itemsB1 with
                    | None => None
                    | Some sortedB =>
                        let h2 := store_items h1 b sortedB in
                        every_item (isObjectEqual fuel') (isArrayEqual fuel')
                          h2 a b (seq 0 (length sortedA))
                    end
                end
            end
      | _, _ => None
      end
  end.

(** [Field.is(model, key, value)] *)
Definition Field_is (fuel : nat) (h : heap) (m : Model) (key : string)
    (v : value) : option (completion bool * heap) :=
  let currentValue := Field_unsafeGet m key in
  if negb (String.eqb (typeof currentValue) (typeof v))
  then Some (Normal false, h)
  else if isArray h currentValue && isArray h v
  then isArrayEqual fuel h currentValue v
  else if String.eqb (typeof currentValue) "object"
          && String.eqb (typeof v) "object"
  then isObjectEqual fuel h currentValue v
  else Some (Normal (strict_eq currentValue v), h).

(** ** Bound fields and the model operations *)

(** [BoundField.toBoundField(model, fieldName, field)]: the field together
    with the name its closures capture. *)
Record BoundField : Type := toBoundField {
  bound_name : string;
  bound_field : Field;
}.

(** [model[MODEL_FIELDS]()], in insertion order. *)
Definition ModelFields := list (string * BoundField).

Fixpoint fields_lookup (fields : ModelFields) (k : string) : option BoundField :=
  match fields with
  | [] => None
  | (k', bf) :: rest => if String.eqb k' k then Some bf else fields_lookup rest k
  end.

(** [ModelKeys<S>]: one key or an array of keys. *)
Inductive ModelKeys : Type :=
| OneKey (k : string)
| ManyKeys (ks : list string).

(** [Array.isArray(keys) ? keys : [keys]] *)
Definition keysArray (keys : ModelKeys) : list string :=
  match keys with OneKey k => [k] | ManyKeys ks => ks end.

Section ModelMethods.

Variable h : heap.
Variable fields : ModelFields.

(** [Model.unsafeGet(key)] *)
Definition Model_unsafeGet (m : Model) (key : string) : completion value :=
  match fields_lookup fields key with
  | Some bf => Normal (Field_unsafeGet m (bound_name bf))
  | None => Abrupt TypeError
  end.

(** [Model.set(data)] *)
Fixpoint Model_set_loop (entries : obj) (m : Model) : completion unit * Model :=
  match entries with
  | [] => (Normal tt, m)
  | (key, v) :: rest =>
      if is_undefined v then Model_set_loop rest m
      else
        match fields_lookup fields key with
        | None => (Abrupt TypeError, m)
        | Some bf =>
            match Field_set (bound_field bf) h m (bound_name bf) v with
            | (Normal _, m') => Model_set_loop rest m'
            | (Abrupt e, m') => (Abrupt e, m')
            end
        end
  end.

Definition Model_set (m : Model) (data : obj) : completion unit * Model :=
  Model_set_loop data m.

(** [Model.unset(keys)] *)
Fixpoint Model_unset_loop (keys : list string) (m : Model)
    : completion unit * Model :=
  match keys with
  | [] => (Normal tt, m)
  | key :: rest =>
      match fields_lookup fields key with
      | None => (Abrupt TypeError, m)
      | Some bf => Model_unset_loop rest (Field_unset m (bound_name bf))
      end
  end.

Definition Model_unset (m : Model) (keys : ModelKeys) : completion unit * Model :=
  Model_unset_loop (keysArray keys) m.

(** [Model.only(keys)] *)
Fixpoint Model_only_loop (keys : list string) (entries : ModelFields)
    (m : Model) : Model :=
  match entries with
  | [] => m
  | (fieldName, bf) :: rest =>
      if includes keys fieldName then Model_only_loop keys rest m
      else if is_IdField (kind (bound_field bf)) then Model_only_loop keys rest m
      else Model_only_loop keys rest (Field_unset m (bound_name bf))
  end.

Definition Model_only (m : Model) (keys : ModelKeys) : Model :=
  Model_only_loop (keysArray keys) fields m.

(** [Model.except(keys)] *)
Fixpoint Model_except_loop (keys : list string) (entries : ModelFields)
    (m : Model) : completion unit * Model :=
  match entries with
  | [] => (Normal tt, m)
  | (fieldName, bf) :: rest =>
      if negb (includes keys fieldName) then Model_except_loop keys rest m
      else if is_IdField (kind (bound_field bf))
      then (Abrupt (VerveError ID_FIELD_CANNOT_BE_EXCLUDED (mkParams "" "" "") []), m)
      else Model_except_loop keys rest (Field_unset m (bound_name bf))
  end.

Definition Model_except (m : Model) (keys : ModelKeys) : completion unit * Model :=
  Model_except_loop (keysArray keys) fields m.

(** [Model.generate(keys?)] *)
Fixpoint Model_generate_loop (keys : option (list string))
    (entries : ModelFields) (m : Model) : completion unit * Model :=
  match entries with
  | [] => (Normal tt, m)
  | (_, bf) :: rest =>
      let skip :=
        match keys with
        | Some ks => negb (includes ks (md_name (metadata (bound_field bf))))
        | None => false
        end in
      if skip then Model_generate_loop keys rest m
      else
        match generator (options (bound_field bf)) with
        | Some _ =>
            if is_undefined (Field_unsafeGet m (bound_name bf))
            then
              match Field_generate (bound_field bf) h m (bound_name bf) with
              | (Normal _, m') => Model_generate_loop keys rest m'
              | (Abrupt e, m') => (Abrupt e, m')
              end
            else Model_generate_loop keys rest m
        | None => Model_generate_loop keys rest m
        end
  end.

(** [keys ? (Array.isArray(keys) ? keys : [keys]) : undefined]: an absent
    argument and the empty string both select every field. *)
Definition optional_keysArray (keys : option ModelKeys) : option (list string) :=
  match keys with
  | None => None
  | Some (OneKey k) => if String.eqb k "" then None else Some [k]
  | Some (ManyKeys ks) => Some ks
  end.

Definition Model_generate (m : Model) (keys : option ModelKeys)
    : completion unit * Model :=
  Model_generate_loop (optional_keysArray keys) fields m.

End ModelMethods.

(** ** The baseline snapshot (src/model/core/utils.ts, [deepClone]) *)

Section CloneLoops.

Variable cloneValue : heap -> value -> option (completion value * heap).

(** Elements of an array: [undefined] is written as [null]. *)
Fixpoint clone_items (h : heap) (items : list value)
    : option (completion (list value) * heap) :=
  match items with
  | [] => Some (Normal [], h)
  | x :: rest =>
      match cloneValue h (if is_undefined x then VNull else x) with
      | Some (Normal x', h1) =>
          match clone_items h1 rest with
          | Some (Normal rest', h2) => Some (Normal (x' :: rest'), h2)
          | other => other
          end
      | Some (Abrupt e, h1) => Some (Abrupt e, h1)
      | None => None
      end
  end.

(** Properties of an object: those holding [undefined] are dropped. *)
Fixpoint clone_props (h : heap) (props : obj)
    : option (completion obj * heap) :=
  match props with
  | [] => Some (Normal [], h)
  | (k, x) :: rest =>
      if is_undefined x then clone_props h rest
      else
        match cloneValue h x with
        | Some (Normal x', h1) =>
            match clone_props h1 rest with
            | Some (Normal rest', h2) => Some (Normal ((k, x') :: rest'), h2)
            | other => other
            end
        | Some (Abrupt e, h1) => Some (Abrupt e, h1)
        | None => None
        end
  end.

End CloneLoops.

(** [JSON.parse(JSON.stringify(v))] on one value: booleans, strings,
    [null] and finite numbers are kept, [NaN] and the infinities become
    [null],
    arrays and objects are rebuilt in fresh cells, a cycle throws. *)
Fixpoint cloneValue (fuel : nat) (stack : list loc) (h : heap) (v : value)
    : option (completion value * heap) :=
  match fuel with
  | 0 => None
  | S fuel' =>
      match v with
      | VRef l =>
          if existsb (Nat.eqb l) stack then Some (Abrupt TypeError, h)
          else
            match h !! l with
            | None => None
            | Some (CArr items) =>
                match clone_items (cloneValue fuel' (l :: stack)) h items with
                | Some (Normal items', h1) =>
                    Some (Normal (VRef (length h1)), h1 ++ [CArr items'])
                | Some (Abrupt e, h1) => Some (Abrupt e, h1)
                | None => None
                end
            | Some (CObj props) =>
                match clone_props (cloneValue fuel' (l :: stack)) h props with
                | Some (Normal props', h1) =>
                    Some (Normal (VRef (length h1)), h1 ++ [CObj props'])
                | Some (Abrupt e, h1) => Some (Abrupt e, h1)
                | None => None
                end
            end
      | VNum NaN | VNum (Infinity _) => Some (Normal VNull, h)
      | _ => Some (Normal v, h)
      end
  end.

(** [deepClone(obj)] applied to a state object. *)
Definition deepClone (fuel : nat) (h : heap) (o : obj)
    : option (completion obj * heap) :=
  clone_props (cloneValue fuel []) h o.

(** [Model[MODEL_INITIAL_STATE](state)] *)
Definition MODEL_INITIAL_STATE (fuel : nat) (h : heap) (m : Model) (s : obj)
    : option (completion unit * Model * heap) :=
  match deepClone fuel h s with
  | Some (Normal s', h') => Some (Normal tt, with_initialState m s', h')
  | Some (Abrupt e, h') => Some (Abrupt e, m, h')
  | None => None
  end.

(** ** Value seeding (src/model/initializers/ValueInitializer.ts) *)

(** [key.startsWith('$') ? key : `$${key}`] *)
Definition makeFieldInstanceKey (key : string) : string :=
  match key with
  | String "$" _ => key
  | _ => String "$" key
  end.

(** [fieldKey.replace('$', '')]: the first dollar sign is removed. *)
Fixpoint replace_dollar (s : string) : string :=
  match s with
  | EmptyString => EmptyString
  | String c rest =>
      if Ascii.eqb c "$" then rest else String c (replace_dollar rest)
  end.

(** [ValueInitializer.getInitialValue(value, { ...options, isHydrating })] *)
Definition getInitialValue (v : value) (o : FieldOptions) (isHydrating : bool)
    : value :=
  if negb (is_undefined v) then v
  else if isHydrating then VUndefined
  else if truthy (default o) then default o
  else
    match getEagerGenerator o with
    | Some eagerGenerator => g_run eagerGenerator tt
    | None => VUndefined
    end.

(** [ValueInitializer.initialize(model, data, { isHydrating })] *)
Fixpoint ValueInitializer_initialize (entries : ModelFields) (m : Model)
    (data : obj) (isHydrating : bool) : Model :=
  match entries with
  | [] => m
  | (fieldKey, bf) :: rest =>
      let fieldName := replace_dollar fieldKey in
      match compute (options (bound_field bf)) with
      | Some _ => ValueInitializer_initialize rest m data isHydrating
      | None =>
          let initialValue :=
            getInitialValue (obj_get data fieldName)
              (options (bound_field bf)) isHydrating in
          if is_undefined initialValue
          then ValueInitializer_initialize rest m data isHydrating
          else
            let m1 := with_state m (obj_set (state m) fieldName initialValue) in
            let m2 := with_own m1
                        (defineProperty (own m1) fieldName
                           (mkProp initialValue true true)) in
            ValueInitializer_initialize rest m2 data isHydrating
      end
  end.

(** ** The association registry *)

Record Association : Type := mkAssociation {
  sourceModel : string;
  sourcePath : string;
  fieldName : string;
  targetModel : string;
  targetPath : string;
}.

(** The closure compiled by [register]: it captures the two paths. *)
Record ValidatorFn : Type := mkValidatorFn {
  vf_sourcePath : string;
  vf_targetPath : string;
}.

Record AssociationRegistry : Type := mkRegistry {
  associations : list Association;
  registered : list (string * ValidatorFn);
}.

Definition registry_key (source name : string) : string :=
  String.append source (String.append "." name).

Fixpoint registered_set (l : list (string * ValidatorFn)) (k : string)
    (v : ValidatorFn) : list (string * ValidatorFn) :=
  match l with
  | [] => [(k, v)]
  | (k', v') :: l' =>
      if String.eqb k' k then (k', v) :: l' else (k', v') :: registered_set l' k v
  end.

(** [AssociationRegistry.register(association)] *)
Definition register (reg : AssociationRegistry) (a : Association)
    : AssociationRegistry :=
  mkRegistry (associations reg ++ [a])
    (registered_set (registered reg)
       (registry_key (sourceModel a) (fieldName a))
       (mkValidatorFn (sourcePath a) (targetPath a))).

(** [AssociationRegistry.getValidator(sourceModel, fieldName)] *)
Fixpoint registered_lookup (l : list (string * ValidatorFn)) (k : string)
    : option ValidatorFn :=
  match l with
  | [] => None
  | (k', v) :: l' => if String.eqb k' k then Some v else registered_lookup l' k
  end.

Definition getValidator (reg : AssociationRegistry) (source name : string)
    : option ValidatorFn :=
  registered_lookup (registered reg) (registry_key source name).

(** [path.split('.')] *)
Fixpoint split_dot (s : string) : list string :=
  match s with
  | EmptyString => [EmptyString]
  | String c rest =>
      if Ascii.eqb c "."
      then EmptyString :: split_dot rest
      else
        match split_dot rest with
        | seg :: segs => String c seg :: segs
        | [] => [String c EmptyString]
        end
  end.

(** [acc?.[key]] *)
Definition optional_get (h : heap) (acc : value) (key : string) : option value :=
  match acc with
  | VUndefined | VNull => Some VUndefined
  | _ => get_prop h acc key
  end.

Fixpoint resolve_segments (h : heap) (acc : value) (keys : list string)
    : option value :=
  match keys with
  | [] => Some acc
  | key :: rest =>
      match optional_get h acc key with
      | Some acc' => resolve_segments h acc' rest
      | None => None
      end
  end.

(** [resolvePath(obj, path)] on a value of the heap. *)
Definition resolvePath (h : heap) (v : value) (path : string) : option value :=
  resolve_segments h v (split_dot path).

(** [resolvePath(model, path)] on a model instance: the first segment
    reads an own property of the instance. *)
Definition resolvePath_model (h : heap) (m : Model) (path : string)
    : option value :=
  match split_dot path with
  | [] => None
  | key :: rest => resolve_segments h (own_get (own m) key) rest
  end.

(** The compiled validator applied to [(sourceModelInstance,
    targetModelInstance)]. *)
Definition run_ValidatorFn (vf : ValidatorFn) (h : heap) (m : Model)
    (target : value) : option bool :=
  match resolvePath_model h m (vf_sourcePath vf),
        resolvePath h target (vf_targetPath vf) with
  | Some sourceVal, Some targetVal => Some (strict_eq sourceVal targetVal)
  | _, _ => None
  end.

(** ** [JSON.stringify], for whether it returns *)

(** The elements of an array, or the property values of an object, one
    after the other. *)
Fixpoint each_value (g : value -> option (completion unit)) (l : list value)
    : option (completion unit) :=
  match l with
  | [] => Some (Normal tt)
  | x :: rest =>
      match g x with
      | Some (Normal _) => each_value g rest
      | other => other
      end
  end.

(** The serialisation of one value: an array or object that is met again
    inside itself throws a TypeError. The text produced plays no role and
    is left out. *)
Fixpoint SerializeJSONProperty (fuel : nat) (stack : list loc) (h : heap)
    (v : value) : option (completion unit) :=
  match fuel with
  | 0 => None
  | S fuel' =>
      match v with
      | VRef l =>
          if existsb (Nat.eqb l) stack then Some (Abrupt TypeError)
          else
            match h !! l with
            | None => None
            | Some (CArr items) =>
                each_value (SerializeJSONProperty fuel' (l :: stack) h) items
            | Some (CObj props) =>
                each_value (SerializeJSONProperty fuel' (l :: stack) h)
                  (map snd props)
            end
      | _ => Some (Normal tt)
      end
  end.

(** [JSON.stringify(v)]. The values on the way down are distinct cells of
    the heap, so the recursion is never deeper than the heap has cells. *)
Definition JSON_stringify (h : heap) (v : value) : option (completion unit) :=
  SerializeJSONProperty (S (length h)) [] h v.

(** ** Construction-time validation
    (src/model/initializers/ValidationInitializer.ts) *)

(** [isLoaded(value)]: [value.id !== undefined &&
    Object.keys(value).length > 1]; reading [id] of [null] or
    [undefined] throws. *)
Definition isLoaded (h : heap) (v : value) : option (completion bool) :=
  match v with
  | VUndefined | VNull => Some (Abrupt TypeError)
  | _ =>
      match get_prop h v "id" with
      | None => None
      | Some id =>
          if is_undefined id then Some (Normal false)
          else
            match own_keys h v with
            | Some (Normal keys) => Some (Normal (Nat.ltb 1 (length keys)))
            | Some (Abrupt e) => Some (Abrupt e)
            | None => None
            end
      end
  end.

Section Validation.

Variable reg : AssociationRegistry.
Variable h : heap.

(** The loop of [validateAssociation] over the embedded values; the
    error for a rejected value carries [JSON.stringify(value)]. *)
Fixpoint validateAssociation_loop (validator : ValidatorFn) (m : Model)
    (modelName name : string) (values : list value) (errors : VerveErrorList)
    : option (completion VerveErrorList) :=
  match values with
  | [] => Some (Normal errors)
  | v :: rest =>
      match isLoaded h v with
      | None => None
      | Some (Abrupt e) => Some (Abrupt e)
      | Some (Normal false) =>
          validateAssociation_loop validator m modelName name rest errors
      | Some (Normal true) =>
          match run_ValidatorFn validator h m v with
          | None => None
          | Some ok =>
              if negb ok
              then
                match JSON_stringify h v with
                | None => None
                | Some (Abrupt e) => Some (Abrupt e)
                | Some (Normal _) =>
                    validateAssociation_loop validator m modelName name rest
                      (errors_add errors ASSOCIATION_INVALID
                         (mkParams name modelName ""))
                end
              else validateAssociation_loop validator m modelName name rest errors
          end
      end
  end.

(** [validateAssociation(model, modelName, fieldName, fieldValue)] *)
Definition validateAssociation (m : Model) (modelName name : string)
    (fieldValue : value) : option (completion VerveErrorList) :=
  match getValidator reg modelName name with
  | None =>
      Some (Normal (errors_add [] ASSOCIATION_VALIDATOR_NOT_FOUND
                      (mkParams name modelName "")))
  | Some validator =>
      let values :=
        if isArray h fieldValue
        then match array_items h fieldValue with Some items => items | None => [] end
        else [fieldValue] in
      validateAssociation_loop validator m modelName name values []
  end.

(** The loop of [validateField] over the eager validators. *)
Fixpoint eager_loop (vs : list FieldValidator) (m : Model)
    (modelName name : string) (v : value) (errors : VerveErrorList)
    : completion VerveErrorList :=
  match vs with
  | [] => Normal errors
  | validator :: rest =>
      match v_run validator h m v with
      | None => Abrupt CallbackError
      | Some result =>
          if negb (strict_eq result (VBool true))
          then eager_loop rest m modelName name v
                 (errors_add errors FIELD_VALIDATOR_FAILED
                    (mkParams name modelName
                       (if String.eqb (v_name validator) ""
                        then "anonymous" else v_name validator)))
          else eager_loop rest m modelName name v errors
      end
  end.

(** [validateField(model, fieldName, fieldInstance)] *)
Definition validateField (m : Model) (name : string) (fieldInstance : BoundField)
    : option (completion VerveErrorList) :=
  let fieldMetadata := metadata (bound_field fieldInstance) in
  let fieldOptions := options (bound_field fieldInstance) in
  let fieldValue := Field_unsafeGet m (bound_name fieldInstance) in
  if is_undefined fieldValue then Some (Normal [])
  else
    let errors1 :=
      if is_null fieldValue && negb (nullable fieldOptions)
      then errors_add [] FIELD_NOT_NULLABLE (mkParams name (md_model fieldMetadata) "")
      else [] in
    let associated :=
      match associate fieldOptions with
      | Some _ => validateAssociation m (md_model fieldMetadata) name fieldValue
      | None => Some (Normal [])
      end in
    match associated with
    | None => None
    | Some (Abrupt e) => Some (Abrupt e)
    | Some (Normal assocErrors) =>
        Some (eager_loop (getEagerValidators fieldOptions) m
                (md_model fieldMetadata) name fieldValue
                (errors_merge errors1 assocErrors))
    end.

(** The loop of [ValidationInitializer.initialize] over
    [Object.keys(schema)]; an unset [modelName] is the empty string. *)
Fixpoint ValidationInitializer_loop (fields : ModelFields) (names : list string)
    (m : Model) (modelName : string) (errors : VerveErrorList)
    : option (completion unit * Model) :=
  match names with
  | [] =>
      if errors_isPresent errors
      then Some (Abrupt (VerveError MODEL_FIELD_VALIDATION_FAILED
                           (mkParams "" modelName "") errors), m)
      else Some (Normal tt, m)
  | name :: rest =>
      let instanceKey := makeFieldInstanceKey name in
      match fields_lookup fields instanceKey with
      | None => Some (Abrupt TypeError, m)
      | Some fld =>
          let v := Field_unsafeGet m (bound_name fld) in
          let modelName' :=
            if String.eqb modelName ""
            then md_model (metadata (bound_field fld)) else modelName in
          if is_undefined v
          then ValidationInitializer_loop fields rest m modelName' errors
          else
            match validateField m name fld with
            | None => None
            | Some (Abrupt e) => Some (Abrupt e, m)
            | Some (Normal fieldErrors) =>
                let m' :=
                  with_own m
                    (defineProperty (own m) name
                       (mkProp v
                          (Field_isWritable (bound_field fld) h m (bound_name fld))
                          (Field_isReadable (bound_field fld) h m (bound_name fld)))) in
                ValidationInitializer_loop fields rest m' modelName'
                  (errors_merge errors fieldErrors)
            end
      end
  end.

(** [ValidationInitializer.initialize(model, schema)] *)
Definition ValidationInitializer_initialize (fields : ModelFields)
    (schema : list string) (m : Model) : option (completion unit * Model) :=
  ValidationInitializer_loop fields schema m "" [].

End Validation.

(** ** Emptiness and presence of a field (src/field/core/Field.ts) *)

(** The white space and line terminators that [String.prototype.trim]
    removes, among the code units a [string] holds here (those below 256):
    tab, line feed, vertical tab, form feed, carriage return, space and
    no-break space. *)
Definition is_white_space (c : ascii) : bool :=
  let n := nat_of_ascii c in
  (Nat.leb 9 n && Nat.leb n 13) || Nat.eqb n 32 || Nat.eqb n 160.

(** [s.trimStart()], [s.trimEnd()], [s.trim()] *)
Fixpoint trimStart (s : string) : string :=
  match s with
  | EmptyString => EmptyString
  | String c rest => if is_white_space c then trimStart rest else s
  end.

Fixpoint trimEnd (s : string) : string :=
  match s with
  | EmptyString => EmptyString
  | String c rest =>
      match trimEnd rest with
      | EmptyString => if is_white_space c then EmptyString else String c EmptyString
      | rest' => String c rest'
      end
  end.

Definition trim (s : string) : string := trimEnd (trimStart s).

(** [isEmpty(model, key)] *)
Definition Field_isEmpty (h : heap) (m : Model) (key : string) : option bool :=
  match Field_unsafeGet m key with
  | VUndefined | VNull => Some true
  | VStr s => Some (Nat.eqb (String.length (trim s)) 0)
  | VRef l =>
      match h !! l with
      | Some (CArr items) => Some (Nat.eqb (length items) 0)
      | Some (CObj props) => Some (Nat.eqb (length (obj_keys props)) 0)
      | None => None
      end
  | VBool _ | VNum _ => Some false
  end.

(** [isPresent(model, key)] *)
Definition Field_isPresent (h : heap) (m : Model) (key : string) : option bool :=
  match Field_isEmpty h m key with
  | Some r => Some (negb r)
  | None => None
  end.

(** ** Queries over the fields of a model (the [Model] base class) *)

(** [Object.keys(this)] on an instance: its enumerable own properties. *)
Definition own_enumerable_keys (o : list (string * prop)) : list string :=
  map fst (List.filter (fun p => p_enumerable (snd p)) o).

Section ModelQueries.

Variable h : heap.
Variable fields : ModelFields.

(** [Model.validate(keys?)] *)
Fixpoint Model_validate_loop (keys : option (list string))
    (entries : ModelFields) (m : Model) (errors : VerveErrorList)
    : completion VerveErrorList :=
  match entries with
  | [] => Normal errors
  | (_, bf) :: rest =>
      let skip :=
        match keys with
        | Some ks => negb (includes ks (md_name (metadata (bound_field bf))))
        | None => false
        end in
      if skip then Model_validate_loop keys rest m errors
      else
        match Field_validate (bound_field bf) h m (bound_name bf) with
        | Normal fieldErrors =>
            Model_validate_loop keys rest m (errors_merge errors fieldErrors)
        | Abrupt e => Abrupt e
        end
  end.

Definition Model_validate (m : Model) (keys : option ModelKeys)
    : completion VerveErrorList :=
  Model_validate_loop (optional_keysArray keys) fields m [].

(** [Model.hasValid(keys)], [Model.isValid()] *)
Fixpoint Model_hasValid_loop (keys : list string) (entries : ModelFields)
    (m : Model) : completion bool :=
  match entries with
  | [] => Normal true
  | (_, bf) :: rest =>
      if negb (includes keys (md_name (metadata (bound_field bf))))
      then Model_hasValid_loop keys rest m
      else
        match Field_isValid (bound_field bf) h m (bound_name bf) with
        | Normal r => if negb r then Normal false else Model_hasValid_loop keys rest m
        | Abrupt e => Abrupt e
        end
  end.

Definition Model_hasValid (m : Model) (keys : ModelKeys) : completion bool :=
  Model_hasValid_loop (keysArray keys) fields m.

Definition Model_isValid (m : Model) : completion bool :=
  Model_hasValid m (ManyKeys (own_enumerable_keys (own m))).

(** [Model.hasEmpty(keys)], [Model.isEmpty()] *)
Fixpoint Model_hasEmpty_loop (keys : list string) (entries : ModelFields)
    (m : Model) : option bool :=
  match entries with
  | [] => Some true
  | (_, bf) :: rest =>
      if negb (includes keys (md_name (metadata (bound_field bf))))
      then Model_hasEmpty_loop keys rest m
      else
        match Field_isEmpty h m (bound_name bf) with
        | Some r => if negb r then Some false else Model_hasEmpty_loop keys rest m
        | None => None
        end
  end.

Definition Model_hasEmpty (m : Model) (keys : ModelKeys) : option bool :=
  Model_hasEmpty_loop (keysArray keys) fields m.

Definition Model_isEmpty (m : Model) : option bool :=
  Model_hasEmpty m (ManyKeys (own_enumerable_keys (own m))).

(** [Model.hasPresent(keys)], [Model.isPresent()] *)
Fixpoint Model_hasPresent_loop (keys : list string) (entries : ModelFields)
    (m : Model) : option bool :=
  match entries with
  | [] => Some true
  | (_, bf) :: rest =>
      if negb (includes keys (md_name (metadata (bound_field bf))))
      then Model_hasPresent_loop keys rest m
      else
        match Field_isPresent h m (bound_name bf) with
        | Some r => if negb r then Some false else Model_hasPresent_loop keys rest m
        | None => None
        end
  end.

Definition Model_hasPresent (m : Model) (keys : ModelKeys) : option bool :=
  Model_hasPresent_loop (keysArray keys) fields m.

Definition Model_isPresent (m : Model) : option bool :=
  Model_hasPresent m (ManyKeys (own_enumerable_keys (own m))).

End ModelQueries.

(** ** Binding the fields of a schema (FieldInitializer) *)

(** A schema after [toField]: the field of each name, in the order of
    [Object.entries(schema)]. *)
Definition ModelSchema := list (string * Field).

(** [fields[k] = boundField] *)
Fixpoint fields_set (fields : ModelFields) (k : string) (bf : BoundField)
    : ModelFields :=
  match fields with
  | [] => [(k, bf)]
  | (k', bf') :: rest =>
      if String.eqb k' k then (k', bf) :: rest else (k', bf') :: fields_set rest k bf
  end.

(** The names every plain object answers for through [Object.prototype].
    Read from an object that has no own property of that name, each gives
    an inherited member (a function, or the prototype itself for
    [__proto__]), which is truthy. *)
Definition Object_prototype_keys : list string :=
  ["constructor"; "__defineGetter__"; "__defineSetter__"; "hasOwnProperty";
   "__lookupGetter__"; "__lookupSetter__"; "isPrototypeOf";
   "propertyIsEnumerable"; "toString"; "valueOf"; "__proto__";
   "toLocaleString"].

(** [fields[k]] used as a condition, on the table [{}] of an instance: a
    bound field is truthy, and so is an inherited member. *)
Definition fields_truthy (fields : ModelFields) (k : string) : bool :=
  match fields_lookup fields k with
  | Some _ => true
  | None => includes Object_prototype_keys k
  end.

(** [FieldInitializer.initialize(model, schema)] as it stands next to
    [createModelClass] (src/model/initializers/ModelInitializer.ts): the
    table is keyed by the field name; a name for which [fields[fieldName]]
    is truthy is skipped. *)
Fixpoint FieldInitializer_initialize (schemaEntries : ModelSchema)
    (fields : ModelFields) : ModelFields :=
  match schemaEntries with
  | [] => fields
  | (fieldName, fieldInstance) :: rest =>
      if fields_truthy fields fieldName
      then FieldInitializer_initialize rest fields
      else
        FieldInitializer_initialize rest
          (fields_set fields fieldName (toBoundField fieldName fieldInstance))
  end.

(** The initializer that keys the table by [makeFieldInstanceKey]
    (the layout [ValidationInitializer] and [ValueInitializer] read). The
    instance key is also defined as a frozen, hidden own property holding
    the same bound field, and the field name as a frozen static property
    of the class; neither holds a [value], and the table records the
    former entry for entry. A field named after a static member of the
    class itself ([prototype], say) is outside this model. *)
Module InstanceKeys.

Definition FieldInitializer_initializeField (fields : ModelFields)
    (fieldName : string) (fieldInstance : Field) : ModelFields :=
  let fieldInstanceKey := makeFieldInstanceKey fieldName in
  match fields_lookup fields fieldInstanceKey with
  | Some _ => fields
  | None => fields_set fields fieldInstanceKey (toBoundField fieldName fieldInstance)
  end.

Fixpoint FieldInitializer_initialize (schemaEntries : ModelSchema)
    (fields : ModelFields) : ModelFields :=
  match schemaEntries with
  | [] => fields
  | (fieldName, fieldInstance) :: rest =>
      FieldInitializer_initialize rest
        (FieldInitializer_initializeField fields fieldName fieldInstance)
  end.

End InstanceKeys.

(** ** Construction ([make] and [from], src/model/initializers/ModelInitializer.ts) *)

Section Construction.

Variable reg : AssociationRegistry.
Variable h : heap.

(** The table [fields] is the one [FieldInitializer] left on the instance
    and [schema] the keys of the schema. The proxy that is returned
    forwards every method of [Model] to the instance, which is what these
    functions answer. *)

(** Phase 5 of [make]: one change per key of the state. *)
Fixpoint Model_make_loop (keys : list string) (m : Model) : Model :=
  match keys with
  | [] => m
  | key :: rest =>
      Model_make_loop rest
        (MODEL_CHANGE_LOG m (mkChange key (obj_get (state m) key) VUndefined))
  end.

(** [Model.make(data)] *)
Definition Model_make (fields : ModelFields) (schema : list string)
    (ctx : value) (data : obj) : option (completion unit * Model) :=
  let instance := with_initializer (new_Model ctx) InitMake in
  let seeded := ValueInitializer_initialize fields instance data false in
  match ValidationInitializer_initialize reg h fields schema seeded with
  | Some (Normal _, validated) =>
      Some (Normal tt, Model_make_loop (obj_keys (state validated)) validated)
  | other => other
  end.

(** [Model.from(data)] *)
Definition Model_from (fuel : nat) (fields : ModelFields) (schema : list string)
    (ctx : value) (data : obj) : option (completion unit * Model * heap) :=
  let instance := with_initializer (new_Model ctx) InitFrom in
  let seeded := ValueInitializer_initialize fields instance data true in
  match ValidationInitializer_initialize reg h fields schema seeded with
  | Some (Normal _, validated) =>
      MODEL_INITIAL_STATE fuel h validated (state validated)
  | Some (Abrupt e, m) => Some (Abrupt e, m, h)
  | None => None
  end.

End Construction.

(** * Derived notions *)

(** What [getChanges] reports for [f], read off the newest entry of [f]. *)
Definition reported (initial : obj) (f : string) (logs : list ModelChangeLog)
    : option value :=
  match find (fun log => String.eqb (field log) f) logs with
  | Some log =>
      if strict_eq (obj_get initial f) (currentValue log) then None
      else Some (currentValue log)
  | None => None
  end.

(** What a construction that met a given validation error must end in:
    never a normal completion; the aggregate error listing that entry,
    unless the language or a callback threw on the way. *)
Definition aborts_listing (entry : ErrorCode * ErrorParams) (c : completion unit)
    : Prop :=
  match c with
  | Normal _ => False
  | Abrupt (VerveError code _ errors) =>
      code = MODEL_FIELD_VALIDATION_FAILED /\ In entry errors
  | Abrupt _ => True
  end.

(** [typeof v === 'number'], [typeof v === 'string'] *)
Definition is_number (v : value) : bool :=
  match v with VNum _ => true | _ => false end.


















(** The validators of [f] whose answer for [v] is not exactly [true],
    and the error [validate] records for one of them. *)
Definition failing_validators (f : Field) (h : heap) (m : Model) (v : value)
    : list FieldValidator :=
  List.filter
    (fun validator =>
       match v_run validator h m v with
       | Some r => negb (strict_eq r (VBool true))
       | None => false
       end)
    (validators (options f)).

Definition validator_error (f : Field) (key : string) (validator : FieldValidator)
    : ErrorCode * ErrorParams :=
  (FIELD_VALIDATOR_FAILED,
   mkParams key (md_model (metadata f))
     (if String.eqb (v_name validator) "" then "anonymous" else v_name validator)).

(** A key the model holds nothing for: no value, no instance property,
    no entry in the change log. *)
Definition cleared (n : string) (m : Model) : Prop :=
  obj_lookup (state m) n = None /\
  own_lookup (own m) n = None /\
  Forall (fun log => String.eqb (field log) n = false) (changeLog m).

(** Every entry of the change log records a defined current value. *)
Definition log_defined (m : Model) : Prop :=
  Forall (fun log => currentValue log <> VUndefined) (changeLog m).

(** A value that, if it is a reference, points at or beyond location [n],
    and a cell holding only such values. *)
Definition refs_from (n : nat) (v : value) : Prop :=
  match v with
  | VRef l => n <= l
  | _ => True
  end.

Definition cell_from (n : nat) (c : cell) : Prop :=
  match c with
  | CArr items => Forall (refs_from n) items
  | CObj props => Forall (fun p => refs_from n (snd p)) props
  end.

(** A value that JSON turns into itself: a boolean, a finite number, a
    string or [null]. *)
Definition is_json_scalar (v : value) : bool :=
  match v with
  | VNull | VBool _ | VNum (Finite _) | VNum (Decimal _) | VStr _ => true
  | VNum NaN | VNum (Infinity _) | VUndefined | VRef _ => false
  end.

(** What one cloning step guarantees: the heap only grows, the new cells
    hold no reference into the old heap, and neither does the result. *)
Definition clones_apart {A} (fresh : nat -> A -> Prop) (h : heap)
    (r : option (completion A * heap)) : Prop :=
  match r with
  | Some (c, h') =>
      exists ext,
        h' = h ++ ext /\
        Forall (cell_from (length h)) ext /\
        match c with
        | Normal a => fresh (length h) a
        | Abrupt _ => True
        end
  | None => True
  end.

(** A field [generate] has something to do for: selected by the keys,
    declared with a generator, and uninitialised. *)
Definition to_generate (keys : option (list string)) (m : Model)
    (entry : string * BoundField) : bool :=
  match keys with
  | Some ks => includes ks (md_name (metadata (bound_field (snd entry))))
  | None => true
  end
  && match generator (options (bound_field (snd entry))) with
     | Some _ => true
     | None => false
     end
  && is_undefined (Field_unsafeGet m (bound_name (snd entry))).

(** * Example models *)

(** A hydrated user whose [groups] field holds an array. *)
Definition groups_field : Field :=
  mkField ListField (mkMetadata "User" "groups")
    (mkOptions false (Some (RuleBool true)) (Some (RuleBool true))
       VUndefined None None [] None).

(** The heap holds that array, [['group-1', 'group-2']], at location 0. *)
Definition groups_heap : heap := [CArr [VStr "group-1"; VStr "group-2"]].

(** The instance as [from({ groups })] leaves it before the baseline is
    recorded. *)
Definition hydrated_user : Model :=
  mkModel InitFrom [("groups", VRef 0)] [] []
    [("groups", mkProp (VRef 0) true true)] VUndefined.

(** [isActive: bool().default(false)], as in the model of the README. *)
Definition isActive_field : Field :=
  mkField BoolField (mkMetadata "User" "isActive")
    (mkOptions false (Some (RuleBool true)) (Some (RuleBool true))
       (VBool false) None None [] None).

(** [count: number().default(0).generate(() => 7)] *)
Definition count_field : Field :=
  mkField NumberField (mkMetadata "User" "count")
    (mkOptions false (Some (RuleBool true)) (Some (RuleBool true))
       (VNum (Finite 0)) None (Some (mkGenerator false (fun _ => VNum (Finite 7)))) [] None).

(** [age: number().nullable.readable(ctx => ctx.auth.role.includes(ADMIN))]
    read with no context: the rule throws, which counts as a denial. *)
Definition age_field : Field :=
  mkField NumberField (mkMetadata "User" "age")
    (mkOptions true
       (Some (RuleFn (fun _ ctx _ _ =>
                        match ctx with
                        | VUndefined | VNull => None
                        | _ => Some (VBool true)
                        end)))
       (Some (RuleBool true)) VUndefined None None [] None).

(** [id: id().generate(() => 'post-id')] on a new post that was made with
    the explicit id [''], as the presence tests do. *)
Definition post_id_field : Field :=
  mkField IdField (mkMetadata "Post" "id")
    (mkOptions false (Some (RuleBool true))
       (Some (RuleFn (fun _ _ m _ => Some (VBool (isNew m)))))
       VUndefined None
       (Some (mkGenerator false (fun _ => VStr "post-id"))) [] None).

(** [Post.make({ id: '' })] *)
Definition empty_id_post : Model :=
  mkModel InitMake [("id", VStr "")] [] [mkChange "id" (VStr "") VUndefined]
    [("id", mkProp (VStr "") true true)] VUndefined.

(** [name: text().validate(v => v.length >= 3 || 'too short')]: the
    validator answers [true] or an error message. *)
Definition name_validator : FieldValidator :=
  mkValidator "" false
    (fun _ _ v =>
       match v with
       | VStr s => if Nat.leb 3 (String.length s) then Some (VBool true)
                   else Some (VStr "too short")
       | _ => Some (VBool false)
       end).

(** The field carrying that validator, and a hydrated user named ['Al']. *)
Definition name_field : Field :=
  mkField TextField (mkMetadata "User" "name")
    (mkOptions false (Some (RuleBool true)) (Some (RuleBool true))
       VUndefined None None [name_validator] None).

Definition short_name_user : Model :=
  mkModel InitFrom [("name", VStr "Al")] [] []
    [("name", mkProp (VStr "Al") true true)] VUndefined.

(** [email: text()], not nullable. *)
Definition email_field : Field :=
  mkField TextField (mkMetadata "User" "email")
    (mkOptions false (Some (RuleBool true)) (Some (RuleBool true))
       VUndefined None None [] None).

(** No association registered. *)
Definition empty_registry : AssociationRegistry := mkRegistry [] [].

(** A post hydrated with [from({ id: 'post-1' })]: its id is not writable. *)
Definition existing_post : Model :=
  mkModel InitFrom [("id", VStr "post-1")] [("id", VStr "post-1")] []
    [("id", mkProp (VStr "post-1") false true)] VUndefined.

(** The user model of the tests, reduced to an id and two text fields. *)
Definition user_id_field : Field :=
  mkField IdField (mkMetadata "User" "id")
    (mkOptions false (Some (RuleBool true))
       (Some (RuleFn (fun _ _ m _ => Some (VBool (isNew m)))))
       VUndefined None (Some (mkGenerator false (fun _ => VStr "some-id"))) [] None).

(** [lastName: text().nullable] *)
Definition lastName_field : Field :=
  mkField TextField (mkMetadata "User" "lastName")
    (mkOptions true (Some (RuleBool true)) (Some (RuleBool true))
       VUndefined None None [] None).

(** The field table of that model, keyed by field name. *)
Definition user_fields : ModelFields :=
  [("id", toBoundField "id" user_id_field);
   ("name", toBoundField "name" name_field);
   ("lastName", toBoundField "lastName" lastName_field)].

(** [User.make({ name: 'Martin', lastName: 'McDonald' })] *)
Definition martin : Model :=
  mkModel InitMake
    [("id", VStr "some-id"); ("name", VStr "Martin"); ("lastName", VStr "McDonald")]
    []
    [mkChange "id" (VStr "some-id") VUndefined;
     mkChange "name" (VStr "Martin") VUndefined;
     mkChange "lastName" (VStr "McDonald") VUndefined]
    [("id", mkProp (VStr "some-id") true true);
     ("name", mkProp (VStr "Martin") true true);
     ("lastName", mkProp (VStr "McDonald") true true)]
    VUndefined.

(** [User.from({ name: 'Martin' })] *)
Definition hydrated_martin : Model :=
  mkModel InitFrom [("name", VStr "Martin")] [("name", VStr "Martin")] []
    [("name", mkProp (VStr "Martin") true true)] VUndefined.









(** A user whose [email] property was frozen at construction, when the
    write rule of the field denied, read again when the rule allows. *)
Definition frozen_email_user : Model :=
  mkModel InitFrom [("email", VStr "old@mail")] [("email", VStr "old@mail")] []
    [("email", mkProp (VStr "old@mail") false true)] VUndefined.

(** [displayName: text().compute(user => user.name)] *)
Definition displayName_field : Field :=
  mkField TextField (mkMetadata "User" "displayName")
    (mkOptions false (Some (RuleBool true)) (Some (RuleBool true))
       VUndefined (Some (mkCompute false (fun _ m => own_get (own m) "name")))
       None [] None).

(** The schema of the user model, and the table of an instance keyed by
    [makeFieldInstanceKey]. *)
Definition user_schema : ModelSchema :=
  [("id", user_id_field); ("name", name_field); ("lastName", lastName_field)].

Definition user_instance_fields : ModelFields :=
  InstanceKeys.FieldInitializer_initialize user_schema [].






(** * Properties *)

(** ** Association lists *)

Lemma eqb_string_refl (s : string) : String.eqb s s = true.
Proof. apply String.eqb_refl. Qed.

Lemma eqb_string_sym (s t : string) : String.eqb s t = String.eqb t s.
Proof.
  destruct (String.eqb s t) eqn:E.
  - apply String.eqb_eq in E. subst. symmetry. apply String.eqb_refl.
  - symmetry. apply String.eqb_neq. intros ->.
    rewrite String.eqb_refl in E. discriminate.
Qed.

Lemma obj_lookup_set (o : obj) (k k' : string) (v : value) :
  obj_lookup (obj_set o k v) k' =
  if String.eqb k k' then Some v else obj_lookup o k'.
Proof.
  induction o as [|[k0 v0] o IH]; simpl.
  - reflexivity.
  - destruct (String.eqb k0 k) eqn:E0; simpl.
    + apply String.eqb_eq in E0. subst k0.
      destruct (String.eqb k k'); reflexivity.
    + destruct (String.eqb k0 k') eqn:E1.
      * apply String.eqb_eq in E1. subst k0.
        rewrite eqb_string_sym, E0. reflexivity.
      * exact IH.
Qed.

Lemma obj_get_set_same (o : obj) (k : string) (v : value) :
  obj_get (obj_set o k v) k = v.
Proof. unfold obj_get. rewrite obj_lookup_set, eqb_string_refl. reflexivity. Qed.

Lemma obj_get_set_other (o : obj) (k k' : string) (v : value) :
  k <> k' -> obj_get (obj_set o k v) k' = obj_get o k'.
Proof.
  intros Hne. unfold obj_get. rewrite obj_lookup_set.
  apply String.eqb_neq in Hne. rewrite Hne. reflexivity.
Qed.

Lemma obj_lookup_delete (o : obj) (k k' : string) :
  obj_lookup (obj_delete o k) k' =
  if String.eqb k k' then None else obj_lookup o k'.
Proof.
  unfold obj_delete. induction o as [|[k0 v0] o IH]; simpl.
  - destruct (String.eqb k k'); reflexivity.
  - destruct (String.eqb k0 k) eqn:E0; simpl.
    + apply String.eqb_eq in E0. subst k0. rewrite IH.
      destruct (String.eqb k k'); reflexivity.
    + destruct (String.eqb k0 k') eqn:E1.
      * apply String.eqb_eq in E1. subst k0.
        rewrite eqb_string_sym, E0. reflexivity.
      * exact IH.
Qed.

Lemma includes_app (l : list string) (x k : string) :
  includes (l ++ [x]) k = includes l k || String.eqb k x.
Proof.
  unfold includes. rewrite existsb_app. simpl. rewrite orb_false_r. reflexivity.
Qed.

Lemma includes_In (l : list string) (k : string) :
  includes l k = true <-> In k l.
Proof.
  unfold includes. rewrite existsb_exists. split.
  - intros (x & Hin & E). apply String.eqb_eq in E. subst. exact Hin.
  - intros Hin. exists k. split; [exact Hin | apply String.eqb_refl].
Qed.

(** ** Change tracking *)

Lemma getChanges_loop_spec (initial : obj) (f : string)
    (logs : list ModelChangeLog) :
  forall (changes : obj) (changedFields : list string),
    (forall k, includes changedFields k = false -> obj_lookup changes k = None) ->
    obj_lookup (getChanges_loop initial logs changes changedFields) f =
    if includes changedFields f then obj_lookup changes f
    else reported initial f logs.
Proof.
  induction logs as [|log rest IH]; intros changes changed Hinv; simpl.
  - destruct (includes changed f) eqn:E; [reflexivity|].
    unfold reported; simpl. apply Hinv, E.
  - assert (Hstep : forall c, 
      (forall k, includes (changed ++ [field log]) k = false -> obj_lookup c k = None) ->
      includes changed (field log) = false ->
      (includes changed f = true -> obj_lookup c f = obj_lookup changes f) ->
      (includes changed f = false -> String.eqb (field log) f = true ->
         obj_lookup c f = reported initial f (log :: rest)) ->
      obj_lookup (getChanges_loop initial rest c (changed ++ [field log])) f =
      if includes changed f then obj_lookup changes f
      else reported initial f (log :: rest)).
    { intros c Hc Hnew Hold Hhit. rewrite (IH c _ Hc), includes_app.
      destruct (includes changed f) eqn:E; simpl.
      - apply Hold. reflexivity.
      - rewrite (eqb_string_sym f (field log)).
        destruct (String.eqb (field log) f) eqn:E1.
        + apply Hhit; reflexivity.
        + unfold reported. simpl. rewrite E1. reflexivity. }
    destruct (includes changed (field log)) eqn:Einc.
    + rewrite (IH changes changed Hinv).
      destruct (includes changed f) eqn:E; [reflexivity|].
      unfold reported. simpl.
      destruct (String.eqb (field log) f) eqn:E1; [|reflexivity].
      apply String.eqb_eq in E1. subst f. congruence.
    + destruct (strict_eq (obj_get initial (field log)) (currentValue log)) eqn:Eq.
      * apply Hstep; auto.
        -- intros k Hk. rewrite includes_app in Hk.
           apply orb_false_iff in Hk. apply Hinv, Hk.
        -- intros E E1. apply String.eqb_eq in E1. subst f.
           unfold reported. simpl. rewrite eqb_string_refl, Eq.
           apply Hinv, Einc.
      * apply Hstep; auto.
        -- intros k Hk. rewrite includes_app in Hk.
           apply orb_false_iff in Hk. destruct Hk as [Hk1 Hk2].
           rewrite obj_lookup_set, (eqb_string_sym (field log) k), Hk2.
           apply Hinv, Hk1.
        -- intros E. rewrite obj_lookup_set.
           destruct (String.eqb (field log) f) eqn:E1; [|reflexivity].
           apply String.eqb_eq in E1. subst f. congruence.
        -- intros E E1. rewrite obj_lookup_set, E1.
           apply String.eqb_eq in E1. subst f.
           unfold reported. simpl. rewrite eqb_string_refl, Eq. reflexivity.
Qed.


(** The scenario of the test suite: a user hydrated with a password and
    an email gets a name, the same email again and two new passwords; the
    changes are the name and the last password. *)
Lemma getChanges_final_changes_only :
  let hydrated :=
    mkModel InitFrom
      [("password", VStr "123"); ("email", VStr "invalidmail")]
      [("password", VStr "123"); ("email", VStr "invalidmail")] [] [] VUndefined in
  let after :=
    Model_set []
      [("name", toBoundField "name" lastName_field);
       ("email", toBoundField "email" email_field);
       ("password", toBoundField "password" email_field)]
      (snd (Model_set []
              [("name", toBoundField "name" lastName_field);
               ("email", toBoundField "email" email_field);
               ("password", toBoundField "password" email_field)]
              hydrated
              [("name", VStr "Martin"); ("email", VStr "invalidmail");
               ("password", VStr "1234")]))
      [("password", VStr "12345")] in
  fst after = Normal tt /\
  getChanges (snd after) = [("password", VStr "12345"); ("name", VStr "Martin")].
Proof. split; reflexivity. Qed.


(** ** Value seeding *)

Lemma getInitialValue_explicit (v : value) (o : FieldOptions) (isHydrating : bool) :
  v <> VUndefined -> getInitialValue v o isHydrating = v.
Proof. intros Hv. unfold getInitialValue. destruct v; simpl; congruence. Qed.

Lemma getInitialValue_hydrating (o : FieldOptions) :
  getInitialValue VUndefined o true = VUndefined.
Proof. reflexivity. Qed.

Lemma getInitialValue_truthy_default (o : FieldOptions) :
  truthy (default o) = true -> getInitialValue VUndefined o false = default o.
Proof. intros Ht. unfold getInitialValue. simpl. rewrite Ht. reflexivity. Qed.

(** C2, on the failing input. With no explicit value and [make], a
    declared default that is falsy is passed over: [default(false)] seeds
    nothing, so the field stays uninitialized and is missing from the
    state, and [default(0)] gives way to the eager generator. *)
Theorem getInitialValue_falsy_default_skipped :
  getInitialValue VUndefined (options isActive_field) false = VUndefined /\
  obj_lookup
    (state (ValueInitializer_initialize
              [("isActive", toBoundField "isActive" isActive_field)]
              (new_Model VUndefined) [] false))
    "isActive" = None /\
  getInitialValue VUndefined (options count_field) false = VNum (Finite 7).
Proof. repeat split; reflexivity. Qed.

(** ** Reading a field *)

Lemma Field_get_uninitialized (f : Field) (h : heap) (m : Model) (key : string) :
  obj_get (state m) key = VUndefined ->
  Field_get f h m key =
  Abrupt (VerveError
            (if Field_isReadable f h m key
             then FIELD_NOT_INITIALIZED else FIELD_NOT_READABLE)
            (params_of f key) []).
Proof.
  intros Hu. unfold Field_get.
  destruct (Field_isReadable f h m key); simpl; [|reflexivity].
  rewrite Hu. reflexivity.
Qed.

(** C4 (as amended). For a field whose stored value is [undefined],
    [Field.get] always fails: with NotInitialized when the field is
    readable, and with NotReadable when its read rule denies, since
    readability is checked first; [unsafeGet] returns [undefined] without
    failing. *)
Theorem Field_get_undefined_fails (f : Field) (h : heap) (m : Model)
    (key : string) (Hundef : obj_get (state m) key = VUndefined) :
  (Field_isReadable f h m key = true ->
   Field_get f h m key =
   Abrupt (VerveError FIELD_NOT_INITIALIZED (params_of f key) [])) /\
  (Field_isReadable f h m key = false ->
   Field_get f h m key =
   Abrupt (VerveError FIELD_NOT_READABLE (params_of f key) [])) /\
  Field_unsafeGet m key = VUndefined.
Proof.
  rewrite (Field_get_uninitialized f h m key Hundef).
  repeat split.
  - intros ->. reflexivity.
  - intros ->. reflexivity.
  - exact Hundef.
Qed.

(** The theorem at the uninitialized, readable [groups] of a new user. *)
Lemma Field_get_undefined_fails_witness :
  obj_get (state (new_Model VUndefined)) "groups" = VUndefined /\
  Field_get groups_field [] (new_Model VUndefined) "groups" =
  Abrupt (VerveError FIELD_NOT_INITIALIZED (params_of groups_field "groups") []) /\
  Field_unsafeGet (new_Model VUndefined) "groups" = VUndefined.
Proof.
  split; [reflexivity|].
  destruct (Field_get_undefined_fails groups_field [] (new_Model VUndefined)
              "groups" eq_refl) as (Hreadable & _ & Hunsafe).
  split; [apply Hreadable; reflexivity | exact Hunsafe].
Defined.

(** C4, counterexample. The [age] field is uninitialized and its read
    rule denies: the public accessor fails with NotReadable, not with
    NotInitialized. *)
Lemma Field_get_uninitialized_not_readable :
  obj_get (state (new_Model VUndefined)) "age" = VUndefined /\
  Field_get age_field [] (new_Model VUndefined) "age" =
  Abrupt (VerveError FIELD_NOT_READABLE (params_of age_field "age") []) /\
  throws_code (Field_get age_field [] (new_Model VUndefined) "age")
    FIELD_NOT_INITIALIZED = false.
Proof. repeat split; reflexivity. Qed.

(** ** Generating a value *)

Lemma Field_generate_no_generator (f : Field) (h : heap) (m : Model) (key : string) :
  generator (options f) = None ->
  Field_generate f h m key =
  (Abrupt (VerveError FIELD_NO_GENERATOR (params_of f key) []), m).
Proof. intros Hg. unfold Field_generate. rewrite Hg. reflexivity. Qed.

Lemma Field_generate_truthy (f : Field) (h : heap) (m : Model) (key : string)
    (g : FieldGenerator) :
  generator (options f) = Some g ->
  truthy (obj_get (state m) key) = true ->
  Field_generate f h m key =
  (Abrupt (VerveError FIELD_ALREADY_GENERATED (params_of f key) []), m).
Proof.
  intros Hg Ht. unfold Field_generate, Field_unsafeGet. rewrite Hg, Ht. reflexivity.
Qed.

Lemma Field_generate_existing (f : Field) (h : heap) (m : Model) (key : string)
    (g : FieldGenerator) :
  generator (options f) = Some g ->
  truthy (obj_get (state m) key) = false ->
  isExisting m = true ->
  Field_generate f h m key =
  (Abrupt (VerveError FIELD_CANNOT_GENERATE_EXISTING (params_of f key) []), m).
Proof.
  intros Hg Ht He. unfold Field_generate, Field_unsafeGet.
  rewrite Hg, Ht, He. reflexivity.
Qed.

Lemma Field_generate_commits (f : Field) (h : heap) (m : Model) (key : string)
    (g : FieldGenerator) :
  generator (options f) = Some g ->
  truthy (obj_get (state m) key) = false ->
  isExisting m = false ->
  Field_generate f h m key = Field_set f h m key (g_run g tt).
Proof.
  intros Hg Ht He. unfold Field_generate, Field_unsafeGet.
  rewrite Hg, Ht, He. reflexivity.
Qed.

(** C7, on the failing input. The field already holds a value, the
    empty string, so it is initialized ([get] would not report
    NotInitialized and [Model.generate] would leave it alone); still
    [Field.generate] does not fail with AlreadyGenerated: it runs the
    generator and overwrites the stored value. *)
Theorem Field_generate_overwrites_falsy_value :
  Field_unsafeGet empty_id_post "id" = VStr "" /\
  fst (Field_generate post_id_field [] empty_id_post "id") = Normal tt /\
  Field_unsafeGet (snd (Field_generate post_id_field [] empty_id_post "id")) "id"
    = VStr "post-id" /\
  Model_generate [] [("id", toBoundField "id" post_id_field)] empty_id_post None
    = (Normal tt, empty_id_post).
Proof. repeat split; reflexivity. Qed.

(** ** Validity of a field *)

Lemma every_validator_truthy (h : heap) (m : Model) (v : value)
    (vs : list FieldValidator) :
  (forall validator, In validator vs -> exists r, v_run validator h m v = Some r) ->
  every_validator h vs m v =
  Normal (forallb (fun validator =>
                     match v_run validator h m v with
                     | Some r => truthy r
                     | None => false
                     end) vs).
Proof.
  induction vs as [|validator rest IH]; intros Hok; simpl.
  - reflexivity.
  - destruct (Hok validator (or_introl eq_refl)) as [r Hr]. rewrite Hr.
    destruct (truthy r); simpl.
    + apply IH. intros w Hw. apply Hok. right. exact Hw.
    + reflexivity.
Qed.

(** C8, on the failing input. The only validator of [name] returns the
    message ['too short'] for the stored value, not [true]: [validate]
    reports it as failed and [get] throws, but [isValid] tests the result
    for truthiness and answers [true]. *)
Theorem Field_isValid_accepts_truthy_result :
  v_run name_validator [] short_name_user (Field_unsafeGet short_name_user "name")
    = Some (VStr "too short") /\
  Field_isValid name_field [] short_name_user "name" = Normal true /\
  Field_validate name_field [] short_name_user "name" =
    Normal [(FIELD_VALIDATOR_FAILED, mkParams "name" "User" "anonymous")] /\
  throws_code (Field_get name_field [] short_name_user "name")
    FIELD_VALIDATORS_FAILED = true.
Proof. repeat split; reflexivity. Qed.

(** ** Nullability *)

Lemma Field_set_null (f : Field) (h : heap) (m : Model) (key : string) :
  nullable (options f) = false ->
  Field_set f h m key VNull =
  (Abrupt (VerveError
             (if Field_isWritable f h m key
              then FIELD_NOT_NULLABLE else FIELD_NOT_WRITABLE)
             (params_of f key) []), m).
Proof.
  intros Hn. unfold Field_set.
  destruct (Field_isWritable f h m key); simpl; [|reflexivity].
  rewrite Hn. reflexivity.
Qed.

Lemma state_with_own (m : Model) (o : list (string * prop)) :
  state (with_own m o) = state m.
Proof. reflexivity. Qed.

Lemma state_MODEL_CHANGE_LOG (m : Model) (c : ModelChangeLog) :
  state (MODEL_CHANGE_LOG m c) = state m.
Proof. unfold MODEL_CHANGE_LOG. destruct (is_undefined (currentValue c)); reflexivity. Qed.

(** The state after [set]: untouched when the call is refused, updated at
    [key] otherwise, also when [Object.assign] throws afterwards. *)
Lemma Field_set_state (f : Field) (h : heap) (m : Model) (key : string) (v : value) :
  state (snd (Field_set f h m key v)) = state m \/
  (state (snd (Field_set f h m key v)) = obj_set (state m) key v /\
   (is_null v && negb (nullable (options f))) = false).
Proof.
  unfold Field_set.
  destruct (negb (Field_isWritable f h m key)); [left; reflexivity|].
  destruct (is_null v && negb (nullable (options f))) eqn:E; [left; reflexivity|].
  right. split; [|reflexivity].
  destruct (assign_own _ key v); simpl; rewrite ?state_MODEL_CHANGE_LOG; reflexivity.
Qed.

Lemma Field_set_never_commits_null (f : Field) (h : heap) (m : Model)
    (key : string) (v : value) :
  nullable (options f) = false ->
  obj_get (state m) key <> VNull ->
  obj_get (state (snd (Field_set f h m key v))) key <> VNull.
Proof.
  intros Hn Hold.
  destruct (Field_set_state f h m key v) as [-> | [-> Hv]]; [exact Hold|].
  rewrite obj_get_set_same. rewrite Hn in Hv. simpl in Hv.
  rewrite andb_true_r in Hv. destruct v; simpl in Hv; congruence.
Qed.

Lemma Model_set_loop_null (h : heap) (fields : ModelFields) (data : obj) :
  forall (m : Model) (key : string) (bf : BoundField),
    In (key, VNull) data ->
    fields_lookup fields key = Some bf ->
    nullable (options (bound_field bf)) = false ->
    is_normal (fst (Model_set_loop h fields data m)) = false.
Proof.
  induction data as [|[k v] rest IH]; intros m key bf Hin Hl Hn; simpl.
  - destruct Hin.
  - destruct Hin as [Heq | Hin].
    + inversion Heq; subst k v. simpl. rewrite Hl.
      rewrite (Field_set_null _ h m (bound_name bf) Hn). reflexivity.
    + destruct (is_undefined v); [eapply IH; eauto|].
      destruct (fields_lookup fields k) as [bf'|]; [|reflexivity].
      destruct (Field_set (bound_field bf') h m (bound_name bf') v) as [[[]|e] m'];
        [eapply IH; eauto | reflexivity].
Qed.

(** *** Seeding a null *)

Lemma ValueInitializer_keeps_explicit (data : obj) (isHydrating : bool)
    (name : string) (v : value) (entries : ModelFields) :
  obj_get data name = v -> v <> VUndefined ->
  forall m : Model,
    obj_get (state m) name = v ->
    obj_get (state (ValueInitializer_initialize entries m data isHydrating)) name = v.
Proof.
  intros Hd Hv. induction entries as [|[fieldKey bf] rest IH]; intros m Hm; simpl.
  - exact Hm.
  - destruct (compute (options (bound_field bf))); [apply IH, Hm|].
    destruct (is_undefined (getInitialValue _ _ _)) eqn:Eu; [apply IH, Hm|].
    apply IH. simpl.
    destruct (String.eqb (replace_dollar fieldKey) name) eqn:E.
    + apply String.eqb_eq in E. rewrite E, Hd.
      rewrite (getInitialValue_explicit v _ _ Hv). apply obj_get_set_same.
    + apply String.eqb_neq in E. rewrite (obj_get_set_other _ _ _ _ E). exact Hm.
Qed.

Lemma ValueInitializer_writes_explicit (data : obj) (isHydrating : bool)
    (name : string) (v : value) (entries : ModelFields) :
  obj_get data name = v -> v <> VUndefined ->
  forall (m : Model) (fieldKey : string) (bf : BoundField),
    In (fieldKey, bf) entries ->
    replace_dollar fieldKey = name ->
    compute (options (bound_field bf)) = None ->
    obj_get (state (ValueInitializer_initialize entries m data isHydrating)) name = v.
Proof.
  intros Hd Hv. induction entries as [|[k0 bf0] rest IH];
    intros m fieldKey bf Hin Hname Hc; simpl.
  - destruct Hin.
  - destruct Hin as [Heq | Hin].
    + inversion Heq; subst k0 bf0. rewrite Hc, Hname, Hd.
      rewrite (getInitialValue_explicit v _ _ Hv).
      destruct v; try congruence; simpl;
        apply (ValueInitializer_keeps_explicit data isHydrating name _ rest Hd Hv);
        simpl; apply obj_get_set_same.
    + destruct (compute (options (bound_field bf0))); [eapply IH; eauto|].
      destruct (is_undefined (getInitialValue _ _ _)); eapply IH; eauto.
Qed.

Lemma fields_lookup_In (fields : ModelFields) (k : string) (bf : BoundField) :
  fields_lookup fields k = Some bf -> In (k, bf) fields.
Proof.
  induction fields as [|[k0 bf0] rest IH]; simpl; [discriminate|].
  destruct (String.eqb k0 k) eqn:E.
  - apply String.eqb_eq in E. intros [= ->]. subst. left. reflexivity.
  - intros Hl. right. apply IH, Hl.
Qed.

Section ValidationFacts.

Variable reg : AssociationRegistry.
Variable h : heap.

Lemma eager_loop_keeps (vs : list FieldValidator) (m : Model)
    (modelName name : string) (v : value) :
  forall errors,
    match eager_loop h vs m modelName name v errors with
    | Normal errors' => incl errors errors'
    | Abrupt e => e = CallbackError
    end.
Proof.
  induction vs as [|validator rest IH]; intros errors; simpl.
  - apply incl_refl.
  - destruct (v_run validator h m v) as [result|]; [|reflexivity].
    destruct (negb (strict_eq result (VBool true))).
    + specialize (IH (errors_add errors FIELD_VALIDATOR_FAILED
                        (mkParams name modelName
                           (if String.eqb (v_name validator) ""
                            then "anonymous" else v_name validator)))).
      destruct (eager_loop _ _ _ _ _ _ _); [|exact IH].
      intros x Hx. apply IH. unfold errors_add. apply in_or_app. left. exact Hx.
    + apply IH.
Qed.

Lemma each_value_abrupt (g : value -> option (completion unit))
    (l : list value) (e : error) :
  (forall x e', g x = Some (Abrupt e') -> e' = TypeError) ->
  each_value g l = Some (Abrupt e) -> e = TypeError.
Proof.
  intros Hg. induction l as [|x rest IH]; simpl; [discriminate|].
  destruct (g x) as [[[]|e']|] eqn:Ex; [exact IH | | discriminate].
  intros [= <-]. exact (Hg x e' Ex).
Qed.

Lemma SerializeJSONProperty_abrupt (fuel : nat) :
  forall (stack : list loc) (v : value) (e : error),
    SerializeJSONProperty fuel stack h v = Some (Abrupt e) -> e = TypeError.
Proof.
  induction fuel as [|fuel IH]; intros stack v e; simpl; [discriminate|].
  destruct v; try discriminate.
  destruct (existsb (Nat.eqb l) stack); [intros [= <-]; reflexivity|].
  destruct (h !! l) as [[items|props]|]; [| |discriminate];
    apply each_value_abrupt; intros x e'; apply IH.
Qed.

Lemma JSON_stringify_abrupt (v : value) (e : error) :
  JSON_stringify h v = Some (Abrupt e) -> e = TypeError.
Proof. apply SerializeJSONProperty_abrupt. Qed.

Lemma isLoaded_abrupt (v : value) (e : error) :
  isLoaded h v = Some (Abrupt e) -> e = TypeError.
Proof.
  unfold isLoaded.
  destruct v; try (intros [= <-]; reflexivity);
    destruct (get_prop h _ "id") as [id|]; try discriminate;
    destruct (is_undefined id); try discriminate;
    unfold own_keys; try discriminate.
  destruct (h !! l) as [[items|props]|]; discriminate.
Qed.

Lemma validateAssociation_loop_abrupt (validator : ValidatorFn) (m : Model)
    (modelName name : string) (values : list value) :
  forall errors e,
    validateAssociation_loop h validator m modelName name values errors
      = Some (Abrupt e) ->
    e = TypeError.
Proof.
  induction values as [|v rest IH]; intros errors e; simpl; [discriminate|].
  destruct (isLoaded h v) as [[[]|e']|] eqn:El; try discriminate.
  - destruct (run_ValidatorFn validator h m v) as [ok|]; [|discriminate].
    destruct (negb ok); [|apply IH].
    destruct (JSON_stringify h v) as [[[]|e']|] eqn:Es;
      [apply IH | | discriminate].
    intros [= <-]. exact (JSON_stringify_abrupt v e' Es).
  - apply IH.
  - intros [= <-]. eapply isLoaded_abrupt, El.
Qed.

Lemma validateField_abrupt (m : Model) (name : string) (bf : BoundField)
    (e : error) :
  validateField reg h m name bf = Some (Abrupt e) ->
  e = TypeError \/ e = CallbackError.
Proof.
  unfold validateField.
  destruct (is_undefined _); [discriminate|].
  destruct (associate _).
  - unfold validateAssociation.
    destruct (getValidator reg _ name) as [validator|].
    + destruct (validateAssociation_loop _ _ _ _ _ _ _) as [[assocErrors|e']|] eqn:El;
        [| |discriminate].
      * intros [= H0]. right.
        pose proof (eager_loop_keeps
                      (getEagerValidators (options (bound_field bf))) m
                      (md_model (metadata (bound_field bf))) name
                      (Field_unsafeGet m (bound_name bf))
                      (errors_merge
                         (if is_null (Field_unsafeGet m (bound_name bf))
                             && negb (nullable (options (bound_field bf)))
                          then errors_add [] FIELD_NOT_NULLABLE
                                 (mkParams name (md_model (metadata (bound_field bf))) "")
                          else []) assocErrors)) as Hk.
        rewrite H0 in Hk. exact Hk.
      * intros [= <-]. left. eapply validateAssociation_loop_abrupt, El.
    + intros [= H0]. right.
      match type of H0 with
      | eager_loop _ ?vs ?m ?mn ?n ?v ?errs = _ =>
          pose proof (eager_loop_keeps vs m mn n v errs) as Hk
      end.
      rewrite H0 in Hk. exact Hk.
  - intros [= H0]. right.
    match type of H0 with
    | eager_loop _ ?vs ?m ?mn ?n ?v ?errs = _ =>
        pose proof (eager_loop_keeps vs m mn n v errs) as Hk
    end.
    rewrite H0 in Hk. exact Hk.
Qed.

Lemma validateField_null (m : Model) (name : string) (bf : BoundField)
    (errors : VerveErrorList) :
  Field_unsafeGet m (bound_name bf) = VNull ->
  nullable (options (bound_field bf)) = false ->
  validateField reg h m name bf = Some (Normal errors) ->
  In (FIELD_NOT_NULLABLE,
      mkParams name (md_model (metadata (bound_field bf))) "") errors.
Proof.
  intros Hv Hn. unfold validateField. rewrite Hv, Hn. simpl.
  destruct (match associate _ with Some _ => _ | None => _ end)
    as [[assocErrors|e]|]; try discriminate.
  intros [= H0].
  match type of H0 with
  | eager_loop _ ?vs ?m ?mn ?n ?v ?errs = _ =>
      pose proof (eager_loop_keeps vs m mn n v errs) as Hk
  end.
  rewrite H0 in Hk. apply Hk. left. reflexivity.
Qed.

Lemma ValidationInitializer_loop_listing (fields : ModelFields)
    (entry : ErrorCode * ErrorParams) (names : list string) :
  forall m modelName errors r,
    In entry errors ->
    ValidationInitializer_loop reg h fields names m modelName errors = Some r ->
    aborts_listing entry (fst r).
Proof.
  induction names as [|name rest IH]; intros m modelName errors r Hin; simpl.
  - destruct errors as [|e0 errors]; [destruct Hin|]. simpl.
    intros [= <-]. simpl. split; [reflexivity | exact Hin].
  - destruct (fields_lookup fields (makeFieldInstanceKey name)) as [fld|];
      [|intros [= <-]; exact I].
    destruct (is_undefined _); [apply IH, Hin|].
    destruct (validateField reg h m name fld) as [[fieldErrors|e]|] eqn:Ev;
      [| |discriminate].
    + apply IH. unfold errors_merge. apply in_or_app. left. exact Hin.
    + intros [= <-]. simpl.
      destruct (validateField_abrupt _ _ _ _ Ev) as [-> | ->]; exact I.
Qed.

Lemma ValidationInitializer_loop_null (fields : ModelFields)
    (name : string) (bf : BoundField) (names : list string) :
  fields_lookup fields (makeFieldInstanceKey name) = Some bf ->
  nullable (options (bound_field bf)) = false ->
  forall m modelName errors r,
    In name names ->
    obj_get (state m) (bound_name bf) = VNull ->
    ValidationInitializer_loop reg h fields names m modelName errors = Some r ->
    aborts_listing
      (FIELD_NOT_NULLABLE, mkParams name (md_model (metadata (bound_field bf))) "")
      (fst r).
Proof.
  intros Hl Hn.
  induction names as [|name0 rest IH]; intros m modelName errors r Hin Hv; simpl.
  - destruct Hin.
  - destruct (string_dec name0 name) as [-> | Hne].
    + rewrite Hl. unfold Field_unsafeGet. rewrite Hv. simpl.
      destruct (validateField reg h m name bf) as [[fieldErrors|e]|] eqn:Ev;
        [| |discriminate].
      * apply ValidationInitializer_loop_listing.
        unfold errors_merge. apply in_or_app. right.
        eapply validateField_null; eauto.
      * intros [= <-]. simpl.
        destruct (validateField_abrupt _ _ _ _ Ev) as [-> | ->]; exact I.
    + destruct Hin as [Heq | Hin]; [congruence|].
      destruct (fields_lookup fields (makeFieldInstanceKey name0)) as [fld|];
        [|intros [= <-]; exact I].
      destruct (is_undefined _); [apply IH; assumption|].
      destruct (validateField reg h m name0 fld) as [[fieldErrors|e]|] eqn:Ev;
        [| |discriminate].
      * apply IH; assumption.
      * intros [= <-]. simpl.
        destruct (validateField_abrupt _ _ _ _ Ev) as [-> | ->]; exact I.
Qed.

Lemma ValidationInitializer_loop_returns (fields : ModelFields)
    (names : list string) :
  (forall k bf, fields_lookup fields k = Some bf ->
     associate (options (bound_field bf)) = None) ->
  forall m modelName errors,
    exists r, ValidationInitializer_loop reg h fields names m modelName errors = Some r.
Proof.
  intros Hnone. induction names as [|name rest IH]; intros m modelName errors; simpl.
  - destruct (errors_isPresent errors); eexists; reflexivity.
  - destruct (fields_lookup fields (makeFieldInstanceKey name)) as [fld|] eqn:El;
      [|eexists; reflexivity].
    destruct (is_undefined _); [apply IH|].
    unfold validateField. rewrite (Hnone _ _ El).
    destruct (is_undefined _); [apply IH|].
    destruct (eager_loop _ _ _ _ _ _ _); [apply IH | eexists; reflexivity].
Qed.

End ValidationFacts.

(** C3 (as amended). For a field not declared nullable, setting [null]
    always fails and never reaches the state: [Field.set] fails with
    NotWritable when the write rule denies and with NotNullable otherwise,
    leaving the model as it was; [Model.set] with a [null] for such a
    field does not complete; no [set] through the field turns a non-null
    stored value into [null]; and when [null] is seeded by [make]/[from],
    validation aborts the construction with ModelFieldValidationFailed
    listing a NotNullable entry for the field (unless the language or a
    callback threw before the errors were gathered); that validation
    always comes to a result when no field carries an association. *)
Theorem null_never_committed (f : Field) (h : heap) (key : string)
    (Hnn : nullable (options f) = false) :
  (forall m,
     Field_set f h m key VNull =
     (Abrupt (VerveError
                (if Field_isWritable f h m key
                 then FIELD_NOT_NULLABLE else FIELD_NOT_WRITABLE)
                (params_of f key) []), m)) /\
  (forall m fields data k,
     In (k, VNull) data ->
     fields_lookup fields k = Some (toBoundField key f) ->
     is_normal (fst (Model_set h fields m data)) = false) /\
  (forall m v,
     obj_get (state m) key <> VNull ->
     obj_get (state (snd (Field_set f h m key v))) key <> VNull) /\
  (forall reg fields schema m0 data isHydrating name r,
     In name schema ->
     fields_lookup fields (makeFieldInstanceKey name) = Some (toBoundField key f) ->
     replace_dollar (makeFieldInstanceKey name) = key ->
     compute (options f) = None ->
     obj_get data key = VNull ->
     ValidationInitializer_initialize reg h fields schema
       (ValueInitializer_initialize fields m0 data isHydrating) = Some r ->
     aborts_listing
       (FIELD_NOT_NULLABLE, mkParams name (md_model (metadata f)) "") (fst r)) /\
  (forall reg fields schema m,
     (forall k bf, fields_lookup fields k = Some bf ->
        associate (options (bound_field bf)) = None) ->
     exists r, ValidationInitializer_initialize reg h fields schema m = Some r).
Proof.
  split; [|split; [|split; [|split]]].
  - intros m. apply Field_set_null, Hnn.
  - intros m fields data k Hin Hl. unfold Model_set.
    eapply Model_set_loop_null; eauto.
  - intros m v. apply Field_set_never_commits_null, Hnn.
  - intros reg fields schema m0 data isHydrating name r Hin Hl Hkey Hc Hd.
    unfold ValidationInitializer_initialize.
    apply (ValidationInitializer_loop_null reg h fields name
             (toBoundField key f) schema Hl Hnn); [exact Hin|].
    simpl. eapply ValueInitializer_writes_explicit.
    + exact Hd.
    + discriminate.
    + apply fields_lookup_In, Hl.
    + exact Hkey.
    + exact Hc.
  - intros reg fields schema m Hnone. unfold ValidationInitializer_initialize.
    apply ValidationInitializer_loop_returns, Hnone.
Qed.

(** The theorem at the non-nullable [email]: set to [null] on a new user,
    and seeded with [null] by a hydration. *)
Lemma null_never_committed_witness :
  nullable (options email_field) = false /\
  Field_set email_field [] (new_Model VUndefined) "email" VNull =
    (Abrupt (VerveError FIELD_NOT_NULLABLE (params_of email_field "email") []),
     new_Model VUndefined) /\
  (exists r,
     ValidationInitializer_initialize empty_registry []
       [("$email", toBoundField "email" email_field)] ["email"]
       (ValueInitializer_initialize
          [("$email", toBoundField "email" email_field)]
          (new_Model VUndefined) [("email", VNull)] true) = Some r /\
     aborts_listing (FIELD_NOT_NULLABLE, mkParams "email" "User" "") (fst r)).
Proof.
  split; [reflexivity|].
  destruct (null_never_committed email_field [] "email" eq_refl)
    as (Hset & _ & _ & Hseed & _).
  split.
  - exact (Hset (new_Model VUndefined)).
  - eexists. split; [reflexivity|].
    eapply (Hseed empty_registry [("$email", toBoundField "email" email_field)]
              ["email"] (new_Model VUndefined) [("email", VNull)] true "email");
      try reflexivity.
    left. reflexivity.
Defined.

(** C3, counterexample. The id of a hydrated post is neither nullable nor
    writable: setting it to [null] fails with NotWritable, not with
    NotNullable. And a [null] seeded for the non-nullable [email] makes the
    construction fail with ModelFieldValidationFailed, which is not the
    NotNullable error either. *)
Lemma set_null_not_writable :
  nullable (options post_id_field) = false /\
  throws_code (fst (Field_set post_id_field [] existing_post "id" VNull))
    FIELD_NOT_WRITABLE = true /\
  throws_code (fst (Field_set post_id_field [] existing_post "id" VNull))
    FIELD_NOT_NULLABLE = false /\
  throws_code
    (fst (Model_set [] [("id", toBoundField "id" post_id_field)] existing_post
            [("id", VNull)]))
    FIELD_NOT_NULLABLE = false /\
  (exists r,
     ValidationInitializer_initialize empty_registry []
       [("$email", toBoundField "email" email_field)] ["email"]
       (ValueInitializer_initialize
          [("$email", toBoundField "email" email_field)]
          (new_Model VUndefined) [("email", VNull)] true) = Some r /\
     throws_code (fst r) MODEL_FIELD_VALIDATION_FAILED = true /\
     throws_code (fst r) FIELD_NOT_NULLABLE = false).
Proof.
  repeat split; try reflexivity.
  eexists. repeat split; reflexivity.
Qed.

(** ** Unsetting, [only] and [except] *)

Lemma state_Field_unset (m : Model) (key : string) :
  state (Field_unset m key) = obj_delete (state m) key.
Proof. unfold Field_unset, MODEL_CHANGE_LOG. simpl. reflexivity. Qed.

Lemma changeLog_Field_unset (m : Model) (key : string) :
  changeLog (Field_unset m key) =
  List.filter (fun log => negb (String.eqb (field log) key)) (changeLog m).
Proof. reflexivity. Qed.

Lemma own_lookup_delete (o : list (string * prop)) (k k' : string) :
  own_lookup (delete_own o k) k' =
  if String.eqb k k' then None else own_lookup o k'.
Proof.
  unfold delete_own. induction o as [|[k0 p0] o IH]; simpl.
  - destruct (String.eqb k k'); reflexivity.
  - destruct (String.eqb k0 k) eqn:E0; simpl.
    + apply String.eqb_eq in E0. subst k0. rewrite IH.
      destruct (String.eqb k k'); reflexivity.
    + destruct (String.eqb k0 k') eqn:E1.
      * apply String.eqb_eq in E1. subst k0.
        rewrite eqb_string_sym, E0. reflexivity.
      * exact IH.
Qed.

Lemma Field_unset_absent (m : Model) (key : string) :
  obj_lookup (state (Field_unset m key)) key = None.
Proof. rewrite state_Field_unset, obj_lookup_delete, eqb_string_refl. reflexivity. Qed.











Lemma find_none_Forall {A} (p : A -> bool) (l : list A) :
  Forall (fun x => p x = false) l -> find p l = None.
Proof.
  induction 1 as [|x l Hx _ IH]; simpl; [reflexivity|].
  rewrite Hx. exact IH.
Qed.

Lemma filter_erases (key : string) (logs : list ModelChangeLog) :
  Forall (fun log => String.eqb (field log) key = false)
    (List.filter (fun log => negb (String.eqb (field log) key)) logs).
Proof.
  apply List.Forall_forall. intros log Hin. apply List.filter_In in Hin.
  destruct Hin as [_ Hp]. apply negb_true_iff in Hp. exact Hp.
Qed.

Lemma getChanges_lookup (m : Model) (f : string) :
  obj_lookup (getChanges m) f = reported (initialState m) f (getChangeLog m).
Proof.
  unfold getChanges.
  rewrite (getChanges_loop_spec (initialState m) f (getChangeLog m) [] []);
    [reflexivity | intros k _; reflexivity].
Qed.

Lemma getChanges_after_unset (m : Model) (key : string) :
  obj_lookup (getChanges (Field_unset m key)) key = None.
Proof.
  rewrite getChanges_lookup. unfold reported, getChangeLog.
  rewrite changeLog_Field_unset, find_none_Forall; [reflexivity|].
  apply List.Forall_rev, filter_erases.
Qed.

(** C6. After [set({f: v})] followed by [unset([f])], whatever the [set]
    did, the change log is the log left by the [set] with every entry of
    [f] removed and nothing appended, so no entry of [f] remains, and
    [getChanges()] does not contain [f]. *)
Theorem unset_erases_change_log (h : heap) (fields : ModelFields) (m : Model)
    (f : string) (v : value) (bf : BoundField)
    (Hf : fields_lookup fields f = Some bf) :
  let m1 := snd (Model_set h fields m [(f, v)]) in
  let r := Model_unset fields m1 (ManyKeys [f]) in
  fst r = Normal tt /\
  changeLog (snd r) =
    List.filter (fun log => negb (String.eqb (field log) (bound_name bf)))
      (changeLog m1) /\
  Forall (fun log => field log <> bound_name bf) (changeLog (snd r)) /\
  obj_lookup (getChanges (snd r)) (bound_name bf) = None /\
  obj_lookup (state (snd r)) (bound_name bf) = None.
Proof.
  intros m1 r.
  assert (Hr : r = (Normal tt, Field_unset m1 (bound_name bf))).
  { subst r. unfold Model_unset, keysArray, Model_unset_loop. rewrite Hf. reflexivity. }
  rewrite Hr. cbn [fst snd].
  split; [reflexivity|]. split; [apply changeLog_Field_unset|].
  split; [|split].
  - rewrite changeLog_Field_unset.
    eapply List.Forall_impl; [|apply filter_erases].
    intros log Hlog Heq. simpl in Hlog. rewrite Heq, eqb_string_refl in Hlog.
    discriminate.
  - apply getChanges_after_unset.
  - apply Field_unset_absent.
Qed.

(** The theorem at a hydrated user whose [lastName] is set, then unset. *)
Lemma unset_erases_change_log_witness :
  fields_lookup user_fields "lastName" = Some (toBoundField "lastName" lastName_field) /\
  Model_set [] user_fields hydrated_martin [("lastName", VStr "McDonald")] =
    (Normal tt,
     mkModel InitFrom [("name", VStr "Martin"); ("lastName", VStr "McDonald")]
       [("name", VStr "Martin")]
       [mkChange "lastName" (VStr "McDonald") VUndefined]
       [("name", mkProp (VStr "Martin") true true);
        ("lastName", mkProp (VStr "McDonald") true true)] VUndefined) /\
  (let m1 := snd (Model_set [] user_fields hydrated_martin
                    [("lastName", VStr "McDonald")]) in
   let r := Model_unset user_fields m1 (ManyKeys ["lastName"]) in
   changeLog (snd r) = [] /\
   obj_lookup (getChanges (snd r)) "lastName" = None).
Proof.
  split; [reflexivity|]. split; [reflexivity|].
  destruct (unset_erases_change_log [] user_fields hydrated_martin "lastName"
              (VStr "McDonald") (toBoundField "lastName" lastName_field) eq_refl)
    as (_ & Hlog & _ & Hchanges & _).
  split; [exact Hlog | exact Hchanges].
Defined.

(** ** The default sort order *)











(** *** Arrays of numbers and arrays of strings *)





























(** ** Association checks *)


(** The fuel [JSON_stringify] starts with is enough: more fuel never
    changes the outcome. *)
Lemma each_value_ext (g g' : value -> option (completion unit)) (l : list value) :
  (forall x, g x = g' x) -> each_value g l = each_value g' l.
Proof.
  intros Hg. induction l as [|x rest IH]; simpl; [reflexivity|].
  rewrite Hg, IH. reflexivity.
Qed.

Lemma SerializeJSONProperty_enough (h : heap) (fuel : nat) :
  forall (stack : list loc) (v : value),
    List.NoDup stack ->
    (forall s, In s stack -> s < length h) ->
    length h < fuel + length stack ->
    SerializeJSONProperty fuel stack h v = SerializeJSONProperty (S fuel) stack h v.
Proof.
  induction fuel as [|fuel IH]; intros stack v Hnd Hin Hlen.
  - exfalso.
    assert (Hle : length stack <= length (seq 0 (length h))).
    { apply NoDup_incl_length; [exact Hnd|].
      intros s Hs. apply in_seq. specialize (Hin s Hs). lia. }
    rewrite length_seq in Hle. simpl in Hlen. lia.
  - change (SerializeJSONProperty (S fuel) stack h v) with
      (match v with
       | VRef l =>
           if existsb (Nat.eqb l) stack then Some (Abrupt TypeError)
           else
             match h !! l with
             | None => None
             | Some (CArr items) =>
                 each_value (SerializeJSONProperty fuel (l :: stack) h) items
             | Some (CObj props) =>
                 each_value (SerializeJSONProperty fuel (l :: stack) h)
                   (map snd props)
             end
       | _ => Some (Normal tt)
       end).
    change (SerializeJSONProperty (S (S fuel)) stack h v) with
      (match v with
       | VRef l =>
           if existsb (Nat.eqb l) stack then Some (Abrupt TypeError)
           else
             match h !! l with
             | None => None
             | Some (CArr items) =>
                 each_value (SerializeJSONProperty (S fuel) (l :: stack) h) items
             | Some (CObj props) =>
                 each_value (SerializeJSONProperty (S fuel) (l :: stack) h)
                   (map snd props)
             end
       | _ => Some (Normal tt)
       end).
    destruct v as [| | | | |l]; try reflexivity.
    destruct (existsb (Nat.eqb l) stack) eqn:Estack; [reflexivity|].
    destruct (h !! l) as [c|] eqn:El; [|reflexivity].
    assert (Hstep : forall x,
              SerializeJSONProperty fuel (l :: stack) h x =
              SerializeJSONProperty (S fuel) (l :: stack) h x).
    { intros x. apply IH.
      - constructor; [|exact Hnd]. intros Hl.
        assert (Hex : existsb (Nat.eqb l) stack = true).
        { apply existsb_exists. exists l. split; [exact Hl|]. apply Nat.eqb_refl. }
        congruence.
      - intros s [<- | Hs]; [|apply Hin; exact Hs].
        eapply lookup_lt_Some. exact El.
      - simpl. lia. }
    destruct c as [items|props]; apply each_value_ext, Hstep.
Qed.

Lemma JSON_stringify_enough (h : heap) (v : value) (k : nat) :
  SerializeJSONProperty (S (length h) + k) [] h v = JSON_stringify h v.
Proof.
  unfold JSON_stringify. induction k as [|k IH].
  - rewrite Nat.add_0_r. reflexivity.
  - rewrite <- IH. rewrite Nat.add_succ_r. symmetry.
    apply SerializeJSONProperty_enough.
    + constructor.
    + intros s [].
    + simpl. lia.
Qed.









(** Two neighbouring facts. Without a registered validator the field is
    reported, loaded or not; and a [null] handed to [validateAssociation]
    makes [isLoaded] read [id] of [null], which throws. *)
Lemma validateAssociation_not_registered (reg : AssociationRegistry) (h : heap)
    (m : Model) (modelName name : string) (fieldValue : value) :
  getValidator reg modelName name = None ->
  validateAssociation reg h m modelName name fieldValue =
  Some (Normal [(ASSOCIATION_VALIDATOR_NOT_FOUND, mkParams name modelName "")]).
Proof. intros Hreg. unfold validateAssociation. rewrite Hreg. reflexivity. Qed.

Lemma validateAssociation_null (reg : AssociationRegistry) (h : heap)
    (m : Model) (modelName name : string) (validator : ValidatorFn) :
  getValidator reg modelName name = Some validator ->
  validateAssociation reg h m modelName name VNull = Some (Abrupt TypeError).
Proof. intros Hreg. unfold validateAssociation. rewrite Hreg. reflexivity. Qed.

(** * Further properties of the code *)

(** ** Writing a field and reading it back *)

Lemma own_lookup_defineProperty (o : list (string * prop)) (k k' : string)
    (p : prop) :
  own_lookup (defineProperty o k p) k' =
  if String.eqb k k' then Some p else own_lookup o k'.
Proof.
  induction o as [|[k0 p0] o IH]; simpl.
  - reflexivity.
  - destruct (String.eqb k0 k) eqn:E0; simpl.
    + apply String.eqb_eq in E0. subst k0.
      destruct (String.eqb k k'); reflexivity.
    + destruct (String.eqb k0 k') eqn:E1.
      * apply String.eqb_eq in E1. subst k0.
        rewrite eqb_string_sym, E0. reflexivity.
      * exact IH.
Qed.

(** What an accepted [set] does, with the two outcomes of [Object.assign]. *)
Lemma Field_set_accepted (f : Field) (h : heap) (m : Model) (key : string)
    (v : value) :
  Field_isWritable f h m key = true ->
  is_null v && negb (nullable (options f)) = false ->
  Field_set f h m key v =
  let m2 :=
    with_state (MODEL_CHANGE_LOG m (mkChange key v (obj_get (state m) key)))
      (obj_set (state m) key v) in
  match assign_own (own m) key v with
  | Some o => (Normal tt, with_own m2 o)
  | None => (Abrupt (VerveError FIELD_SET_ERROR (params_of f key) []), m2)
  end.
Proof.
  intros Hw Hn. unfold Field_set. rewrite Hw, Hn. cbn [negb]. cbv zeta.
  rewrite state_MODEL_CHANGE_LOG.
  assert (Hown : own (with_state
                        (MODEL_CHANGE_LOG m (mkChange key v (obj_get (state m) key)))
                        (obj_set (state m) key v)) = own m).
  { unfold MODEL_CHANGE_LOG. destruct (is_undefined _); reflexivity. }
  rewrite Hown. reflexivity.
Qed.

Lemma changeLog_MODEL_CHANGE_LOG_defined (m : Model) (c : ModelChangeLog) :
  is_undefined (currentValue c) = false ->
  changeLog (MODEL_CHANGE_LOG m c) = changeLog m ++ [c].
Proof. intros H. unfold MODEL_CHANGE_LOG. rewrite H. reflexivity. Qed.

Lemma initialState_MODEL_CHANGE_LOG (m : Model) (c : ModelChangeLog) :
  initialState (MODEL_CHANGE_LOG m c) = initialState m.
Proof. unfold MODEL_CHANGE_LOG. destruct (is_undefined _); reflexivity. Qed.

(** X1. Round trip of [set] and [unsafeGet]. When the write rule allows
    it and the value is not a [null] for a non-nullable field, [set]
    stores the value under its key whether or not the assignment to the
    instance property succeeds: [unsafeGet] then returns it, every other
    key reads as before, the baseline is untouched, and a defined value
    is appended to the change log together with the value it replaced. *)
Theorem Field_set_then_unsafeGet (f : Field) (h : heap) (m : Model)
    (key : string) (v : value)
    (Hw : Field_isWritable f h m key = true)
    (Hn : is_null v && negb (nullable (options f)) = false) :
  let r := Field_set f h m key v in
  Field_unsafeGet (snd r) key = v /\
  (forall k, k <> key -> Field_unsafeGet (snd r) k = Field_unsafeGet m k) /\
  initialState (snd r) = initialState m /\
  (is_undefined v = false ->
   changeLog (snd r) = changeLog m ++ [mkChange key v (Field_unsafeGet m key)]).
Proof.
  intros r. subst r. rewrite (Field_set_accepted f h m key v Hw Hn).
  cbv zeta. unfold Field_unsafeGet.
  destruct (assign_own (own m) key v); cbn [fst snd];
    rewrite ?state_with_own; cbn [state with_state with_own];
    (split; [apply obj_get_set_same|]);
    (split; [intros k Hk; apply obj_get_set_other; congruence|]);
    (split; [apply initialState_MODEL_CHANGE_LOG|]);
    intros Hv; apply changeLog_MODEL_CHANGE_LOG_defined; exact Hv.
Qed.

Lemma Field_set_then_unsafeGet_witness :
  Field_unsafeGet
    (snd (Field_set lastName_field [] hydrated_martin "lastName" (VStr "McDonald")))
    "lastName" = VStr "McDonald" /\
  Field_unsafeGet
    (snd (Field_set lastName_field [] hydrated_martin "lastName" (VStr "McDonald")))
    "name" = VStr "Martin".
Proof.
  destruct (Field_set_then_unsafeGet lastName_field [] hydrated_martin "lastName"
              (VStr "McDonald") eq_refl eq_refl) as (H1 & H2 & _).
  split; [exact H1|]. rewrite (H2 "name"); [reflexivity | discriminate].
Defined.

(** X2. A failed assignment is not rolled back. When the write rule
    allows the write but the instance property is not writable,
    [Object.assign] throws and [set] fails with [FIELD_SET_ERROR]; by then
    the value is already in the state, so [unsafeGet] returns the new
    value while the instance property still holds the old one. *)
Theorem Field_set_error_keeps_write (f : Field) (h : heap) (m : Model)
    (key : string) (v : value) (p : prop)
    (Hw : Field_isWritable f h m key = true)
    (Hn : is_null v && negb (nullable (options f)) = false)
    (Hp : own_lookup (own m) key = Some p)
    (Hfrozen : p_writable p = false) :
  let r := Field_set f h m key v in
  fst r = Abrupt (VerveError FIELD_SET_ERROR (params_of f key) []) /\
  Field_unsafeGet (snd r) key = v /\
  own_get (own (snd r)) key = p_value p.
Proof.
  intros r. subst r. rewrite (Field_set_accepted f h m key v Hw Hn).
  cbv zeta. unfold assign_own. rewrite Hp, Hfrozen. cbn [fst snd].
  split; [reflexivity|]. split.
  - unfold Field_unsafeGet. cbn [state with_state]. apply obj_get_set_same.
  - unfold own_get.
    replace (own (with_state
                    (MODEL_CHANGE_LOG m (mkChange key v (obj_get (state m) key)))
                    (obj_set (state m) key v))) with (own m).
    + rewrite Hp. reflexivity.
    + unfold MODEL_CHANGE_LOG. destruct (is_undefined _); reflexivity.
Qed.

Lemma Field_set_error_keeps_write_witness :
  throws_code (fst (Field_set email_field [] frozen_email_user "email" (VStr "new@mail")))
    FIELD_SET_ERROR = true /\
  Field_unsafeGet
    (snd (Field_set email_field [] frozen_email_user "email" (VStr "new@mail")))
    "email" = VStr "new@mail" /\
  own_get
    (own (snd (Field_set email_field [] frozen_email_user "email" (VStr "new@mail"))))
    "email" = VStr "old@mail".
Proof.
  destruct (Field_set_error_keeps_write email_field [] frozen_email_user "email"
              (VStr "new@mail") (mkProp (VStr "old@mail") false true)
              eq_refl eq_refl eq_refl eq_refl) as (H1 & H2 & H3).
  split; [rewrite H1; reflexivity|]. split; [exact H2 | exact H3].
Defined.

(** ** Reading a field and validating it *)

Lemma errors_isPresent_false (errors : VerveErrorList) :
  errors_isPresent errors = false <-> errors = [].
Proof.
  unfold errors_isPresent. destruct errors; simpl; split; intros H;
    try reflexivity; discriminate.
Qed.

(** What a successful [get] went through. *)
Lemma Field_get_inv (f : Field) (h : heap) (m : Model) (key : string) (v : value) :
  Field_get f h m key = Normal v ->
  Field_isReadable f h m key = true /\
  Field_unsafeGet m key = v /\
  v <> VUndefined /\
  Field_validate f h m key = Normal [].
Proof.
  unfold Field_get, Field_unsafeGet.
  destruct (Field_isReadable f h m key); cbn [negb]; [|discriminate].
  destruct (is_undefined (obj_get (state m) key)) eqn:Eu; [discriminate|].
  destruct (Field_validate f h m key) as [errors|e]; [|discriminate].
  destruct (errors_isPresent errors) eqn:Ep; [discriminate|].
  apply errors_isPresent_false in Ep. subst errors.
  intros Hv. injection Hv as <-.
  repeat split. intros Hu. rewrite Hu in Eu. discriminate.
Qed.

(** X3. When [get] succeeds. [get] returns a value exactly when the read
    rule allows it, the stored value is defined and [validate] reports no
    error; the value returned is the stored one. *)
Theorem Field_get_succeeds_iff (f : Field) (h : heap) (m : Model)
    (key : string) (v : value) :
  Field_get f h m key = Normal v <->
  Field_isReadable f h m key = true /\
  Field_unsafeGet m key = v /\
  v <> VUndefined /\
  Field_validate f h m key = Normal [].
Proof.
  split; [apply Field_get_inv|].
  intros (Hr & Hv & Hd & Hval).
  unfold Field_get. unfold Field_unsafeGet in Hv. rewrite Hr, Hv, Hval.
  destruct v; try reflexivity. congruence.
Qed.

Lemma validate_loop_spec (f : Field) (h : heap) (m : Model) (key : string)
    (v : value) (vs : list FieldValidator) :
  (forall validator, In validator vs -> v_run validator h m v <> None) ->
  forall errors,
    validate_loop f h vs m key v errors =
    Normal (errors ++
            map (validator_error f key)
              (List.filter
                 (fun validator =>
                    match v_run validator h m v with
                    | Some r => negb (strict_eq r (VBool true))
                    | None => false
                    end) vs)).
Proof.
  induction vs as [|validator vs IH]; intros Htotal errors; simpl.
  - rewrite app_nil_r. reflexivity.
  - destruct (v_run validator h m v) as [result|] eqn:Er.
    + destruct (negb (strict_eq result (VBool true))).
      * rewrite IH by (intros w Hin; apply Htotal; right; exact Hin).
        unfold errors_add. rewrite <- app_assoc. reflexivity.
      * apply IH. intros w Hin. apply Htotal. right. exact Hin.
    + exfalso. apply (Htotal validator); [left; reflexivity | exact Er].
Qed.

(** X4. What [validate] reports. For a defined value, and validators
    that do not throw, [validate] returns one [FIELD_VALIDATOR_FAILED]
    entry, in order, for each validator whose answer is not exactly
    [true], naming the validator (or ['anonymous']). *)
Theorem Field_validate_lists_failures (f : Field) (h : heap) (m : Model)
    (key : string)
    (Hdef : Field_unsafeGet m key <> VUndefined)
    (Htotal : forall validator, In validator (validators (options f)) ->
              v_run validator h m (Field_unsafeGet m key) <> None) :
  Field_validate f h m key =
  Normal (map (validator_error f key)
            (failing_validators f h m (Field_unsafeGet m key))).
Proof.
  unfold Field_validate, failing_validators.
  destruct (is_undefined (Field_unsafeGet m key)) eqn:Eu.
  - destruct (Field_unsafeGet m key); try discriminate. congruence.
  - rewrite (validate_loop_spec f h m key _ _ Htotal []). reflexivity.
Qed.

Lemma Field_validate_lists_failures_witness :
  Field_validate name_field [] short_name_user "name" =
  Normal [(FIELD_VALIDATOR_FAILED, mkParams "name" "User" "anonymous")].
Proof.
  rewrite (Field_validate_lists_failures name_field [] short_name_user "name").
  - reflexivity.
  - discriminate.
  - intros validator [<- | []]. discriminate.
Defined.

Lemma validate_loop_grows (f : Field) (h : heap) (m : Model) (key : string)
    (v : value) (vs : list FieldValidator) :
  forall errors errors',
    validate_loop f h vs m key v errors = Normal errors' ->
    length errors <= length errors'.
Proof.
  induction vs as [|validator vs IH]; intros errors errors'; simpl.
  - intros H. injection H as <-. lia.
  - destruct (v_run validator h m v) as [result|]; [|discriminate].
    destruct (negb (strict_eq result (VBool true))); intros H.
    + apply IH in H. unfold errors_add in H. rewrite length_app in H.
      simpl in H. lia.
    + apply IH in H. exact H.
Qed.

Lemma strict_eq_true (r : value) : strict_eq r (VBool true) = true -> r = VBool true.
Proof. destruct r as [| |[|]| | |]; simpl; intros H; try discriminate; reflexivity. Qed.

Lemma validate_loop_clean (f : Field) (h : heap) (m : Model) (key : string)
    (v : value) (vs : list FieldValidator) :
  validate_loop f h vs m key v [] = Normal [] ->
  Forall (fun validator => v_run validator h m v = Some (VBool true)) vs.
Proof.
  induction vs as [|validator vs IH]; simpl; intros H.
  - constructor.
  - destruct (v_run validator h m v) as [result|] eqn:Er; [|discriminate].
    destruct (negb (strict_eq result (VBool true))) eqn:Es.
    + apply validate_loop_grows in H. simpl in H. lia.
    + apply negb_false_iff, strict_eq_true in Es. subst result.
      constructor; [exact Er | apply IH; exact H].
Qed.

(** X5. A readable value is a valid one. Whenever [get] returns a value,
    [isValid] answers [true]: passing every validator with exactly [true]
    is stronger than passing each with a truthy answer. *)
Theorem Field_get_implies_isValid (f : Field) (h : heap) (m : Model)
    (key : string) (v : value)
    (Hget : Field_get f h m key = Normal v) :
  Field_isValid f h m key = Normal true.
Proof.
  apply Field_get_inv in Hget. destruct Hget as (_ & Hv & Hd & Hval).
  unfold Field_validate in Hval. rewrite Hv in Hval.
  destruct v; try congruence; cbn [is_undefined] in Hval;
    apply validate_loop_clean in Hval;
    unfold Field_isValid; rewrite Hv;
    induction Hval as [|validator vs Hx _ IH]; simpl; try reflexivity;
    rewrite Hx; simpl; exact IH.
Qed.

Lemma Field_get_implies_isValid_witness :
  Field_get name_field [] hydrated_martin "name" = Normal (VStr "Martin") /\
  Field_isValid name_field [] hydrated_martin "name" = Normal true.
Proof.
  split; [reflexivity|].
  exact (Field_get_implies_isValid name_field [] hydrated_martin "name"
           (VStr "Martin") eq_refl).
Defined.

(** ** Unsetting a field *)


Lemma Field_unset_unfold (m : Model) (key : string) :
  Field_unset m key =
  mkModel (initializer m) (obj_delete (state m) key) (initialState m)
    (List.filter (fun log => negb (String.eqb (field log) key)) (changeLog m))
    (delete_own (own m) key) (context m).
Proof. reflexivity. Qed.


(** X7. The attributes [set] leaves on the instance property. After a
    successful [set] the property of that name holds the value and is
    writable; it is enumerable as it was before, and enumerable when
    there was no such property. A field hidden at construction by its
    read rule therefore stays hidden across writes, but is listed by
    [Object.keys] once it has been unset and set again. *)
Theorem Field_set_property_attributes (f : Field) (h : heap) (m : Model)
    (key : string) (v : value)
    (Hok : fst (Field_set f h m key v) = Normal tt) :
  own_lookup (own (snd (Field_set f h m key v))) key =
  Some (mkProp v true
          (match own_lookup (own m) key with
           | Some p => p_enumerable p
           | None => true
           end)) /\
  (own_lookup (own m) key = None ->
   In key (own_enumerable_keys (own (snd (Field_set f h m key v))))).
Proof.
  assert (Hlook :
    own_lookup (own (snd (Field_set f h m key v))) key =
    Some (mkProp v true
            (match own_lookup (own m) key with
             | Some p => p_enumerable p
             | None => true
             end))).
  { revert Hok. unfold Field_set.
    destruct (negb (Field_isWritable f h m key)); [discriminate|].
    destruct (is_null v && negb (nullable (options f))); [discriminate|].
    cbv zeta.
    assert (Hown : own (with_state
                          (MODEL_CHANGE_LOG m (mkChange key v (obj_get (state m) key)))
                          (obj_set
                             (state (MODEL_CHANGE_LOG m
                                       (mkChange key v (obj_get (state m) key))))
                             key v)) = own m).
    { unfold MODEL_CHANGE_LOG. destruct (is_undefined _); reflexivity. }
    rewrite Hown. unfold assign_own.
    destruct (own_lookup (own m) key) as [p|] eqn:Ep.
    - destruct (p_writable p); [|discriminate].
      intros _. cbn [snd own with_own].
      rewrite own_lookup_defineProperty, eqb_string_refl. reflexivity.
    - intros _. cbn [snd own with_own].
      rewrite own_lookup_defineProperty, eqb_string_refl. reflexivity. }
  split; [exact Hlook|].
  intros Habsent. rewrite Habsent in Hlook.
  unfold own_enumerable_keys.
  generalize dependent (own (snd (Field_set f h m key v))).
  intros o. induction o as [|[k p] o IH]; simpl; [discriminate|].
  destruct (String.eqb k key) eqn:Ek.
  - apply String.eqb_eq in Ek. subst k. intros Hp. injection Hp as ->.
    simpl. left. reflexivity.
  - intros Hp. destruct (p_enumerable p); simpl; [right|]; apply IH; exact Hp.
Qed.

Lemma Field_set_property_attributes_witness :
  own_lookup
    (own (snd (Field_set lastName_field [] hydrated_martin "lastName" (VStr "McDonald"))))
    "lastName" = Some (mkProp (VStr "McDonald") true true).
Proof.
  exact (proj1 (Field_set_property_attributes lastName_field [] hydrated_martin
                  "lastName" (VStr "McDonald") eq_refl)).
Defined.

(** ** Computed fields *)

(** X8. Reading a computed field writes it. When [compute] returns a
    value, that value is what the compute function answered, it is
    defined, it has been stored under the key, and one more entry has
    been appended to the change log. *)
Theorem Field_compute_stores_result (f : Field) (h : heap) (m : Model)
    (key : string) (c : FieldCompute) (v : value)
    (Hc : compute (options f) = Some c)
    (Hok : fst (Field_compute f h m key) = Normal v) :
  v = c_run c h m /\
  v <> VUndefined /\
  Field_unsafeGet (snd (Field_compute f h m key)) key = v /\
  changeLog (snd (Field_compute f h m key)) =
    changeLog m ++ [mkChange key v (Field_unsafeGet m key)].
Proof.
  revert Hok. unfold Field_compute. rewrite Hc.
  destruct (Field_set f h m key (c_run c h m)) as [[[]|e] m'] eqn:Eset;
    cbn [fst snd]; [|discriminate].
  intros Hget. apply Field_get_inv in Hget.
  destruct Hget as (_ & Hv & Hd & _).
  assert (Hw : Field_isWritable f h m key = true).
  { revert Eset. unfold Field_set.
    destruct (Field_isWritable f h m key); [reflexivity|]. discriminate. }
  assert (Hn : is_null (c_run c h m) && negb (nullable (options f)) = false).
  { revert Eset. unfold Field_set. rewrite Hw. cbn [negb].
    destruct (is_null (c_run c h m) && negb (nullable (options f)));
      [discriminate | reflexivity]. }
  pose proof (Field_set_accepted f h m key (c_run c h m) Hw Hn) as Hacc.
  rewrite Eset in Hacc. cbv zeta in Hacc.
  destruct (assign_own (own m) key (c_run c h m)) as [o|]; [|discriminate].
  injection Hacc as ->.
  assert (Hstored : Field_unsafeGet
                      (with_own
                         (with_state
                            (MODEL_CHANGE_LOG m
                               (mkChange key (c_run c h m) (obj_get (state m) key)))
                            (obj_set (state m) key (c_run c h m))) o) key
                    = c_run c h m).
  { unfold Field_unsafeGet. cbn [state with_own with_state].
    apply obj_get_set_same. }
  rewrite Hstored in Hv. subst v.
  split; [reflexivity|]. split; [exact Hd|]. split; [exact Hstored|].
  cbn [changeLog with_own with_state].
  apply changeLog_MODEL_CHANGE_LOG_defined. cbn [currentValue].
  destruct (c_run c h m); try reflexivity. congruence.
Qed.

Lemma Field_compute_stores_result_witness :
  fst (Field_compute displayName_field [] hydrated_martin "displayName")
    = Normal (VStr "Martin") /\
  changeLog (snd (Field_compute displayName_field [] hydrated_martin "displayName"))
    = [mkChange "displayName" (VStr "Martin") VUndefined].
Proof.
  split; [reflexivity|].
  destruct (Field_compute_stores_result displayName_field [] hydrated_martin
              "displayName"
              (mkCompute false (fun _ m => own_get (own m) "name"))
              (VStr "Martin") eq_refl eq_refl) as (_ & _ & _ & H).
  exact H.
Defined.

(** ** Emptiness of a field *)

Lemma trimEnd_keeps_head (c : ascii) (rest : string) :
  is_white_space c = false -> trimEnd (String c rest) <> EmptyString.
Proof.
  intros Hc. simpl. destruct (trimEnd rest); [rewrite Hc|]; discriminate.
Qed.

Lemma trim_blank (s : string) :
  Nat.eqb (String.length (trim s)) 0 =
  forallb is_white_space (list_ascii_of_string s).
Proof.
  unfold trim. induction s as [|c rest IH].
  - reflexivity.
  - cbn [trimStart list_ascii_of_string forallb].
    destruct (is_white_space c) eqn:Ec.
    + exact IH.
    + pose proof (trimEnd_keeps_head c rest Ec) as Hne.
      destruct (trimEnd (String c rest)); [congruence | reflexivity].
Qed.

(** X9. Which strings are empty. A field holding a string is empty
    exactly when every character of the string is white space (the empty
    string included); [isPresent] is the negation. *)
Theorem Field_isEmpty_blank_string (h : heap) (m : Model) (key : string)
    (s : string)
    (Hs : Field_unsafeGet m key = VStr s) :
  Field_isEmpty h m key = Some (forallb is_white_space (list_ascii_of_string s)) /\
  Field_isPresent h m key =
    Some (negb (forallb is_white_space (list_ascii_of_string s))).
Proof.
  unfold Field_isPresent, Field_isEmpty. rewrite Hs, trim_blank.
  split; reflexivity.
Qed.

Lemma Field_isEmpty_blank_string_witness :
  Field_isEmpty []
    (mkModel InitMake [("title", VStr "   ")] [] [] [] VUndefined) "title"
  = Some true.
Proof.
  exact (proj1 (Field_isEmpty_blank_string []
                  (mkModel InitMake [("title", VStr "   ")] [] [] [] VUndefined)
                  "title" "   " eq_refl)).
Defined.

(** ** Comparing with [null] *)

(** X10. [is] cannot compare with [null]. [typeof null] is ['object'], so
    when the stored value is [null] and the argument is an object, an
    array or [null], or when the stored value is an object or an array and
    the argument is [null], the comparison reaches [Object.keys(null)]
    and throws a [TypeError] instead of answering. *)
Theorem Field_is_null_throws (fuel : nat) (h : heap) (m : Model) (key : string)
    (v : value)
    (Hnull :
       (Field_unsafeGet m key = VNull /\ typeof v = "object") \/
       (exists l c, Field_unsafeGet m key = VRef l /\ h !! l = Some c /\ v = VNull)) :
  Field_is (S fuel) h m key v = Some (Abrupt TypeError, h).
Proof.
  unfold Field_is.
  destruct Hnull as [[Hcur Hobj] | (l & c & Hcur & Hl & ->)]; rewrite Hcur.
  - rewrite Hobj. cbn [typeof isArray andb negb String.eqb].
    simpl. rewrite Hobj. reflexivity.
  - cbn [typeof]. simpl in Hl |- *. rewrite Hl.
    destruct c; reflexivity.
Qed.

Lemma Field_is_null_throws_witness :
  Field_is 1 []
    (mkModel InitFrom [("lastName", VNull)] [] [] [] VUndefined) "lastName" VNull
  = Some (Abrupt TypeError, []).
Proof.
  apply (Field_is_null_throws 0 []
           (mkModel InitFrom [("lastName", VNull)] [] [] [] VUndefined)
           "lastName" VNull).
  left. split; reflexivity.
Defined.

(** ** Setting several fields *)

Lemma Field_set_other (f : Field) (h : heap) (m : Model) (key k : string)
    (v : value) :
  k <> key ->
  obj_get (state (snd (Field_set f h m key v))) k = obj_get (state m) k.
Proof.
  intros Hne.
  destruct (Field_set_state f h m key v) as [-> | [-> _]]; [reflexivity|].
  apply obj_get_set_other. congruence.
Qed.

(** What a successful [set] went through. *)
Lemma Field_set_inv (f : Field) (h : heap) (m m' : Model) (key : string)
    (v : value) :
  Field_set f h m key v = (Normal tt, m') ->
  Field_isWritable f h m key = true /\
  is_null v && negb (nullable (options f)) = false /\
  exists o,
    assign_own (own m) key v = Some o /\
    m' = with_own
           (with_state (MODEL_CHANGE_LOG m (mkChange key v (obj_get (state m) key)))
              (obj_set (state m) key v)) o.
Proof.
  intros Hset.
  assert (Hw : Field_isWritable f h m key = true).
  { revert Hset. unfold Field_set.
    destruct (Field_isWritable f h m key); [reflexivity | discriminate]. }
  assert (Hn : is_null v && negb (nullable (options f)) = false).
  { revert Hset. unfold Field_set. rewrite Hw. cbn [negb].
    destruct (is_null v && negb (nullable (options f)));
      [discriminate | reflexivity]. }
  split; [exact Hw|]. split; [exact Hn|].
  rewrite (Field_set_accepted f h m key v Hw Hn) in Hset. cbv zeta in Hset.
  destruct (assign_own (own m) key v) as [o|]; [|discriminate].
  exists o. split; [reflexivity|]. injection Hset as <-. reflexivity.
Qed.

Lemma Model_set_loop_frame (h : heap) (fields : ModelFields) (k : string) :
  (forall key bf, fields_lookup fields key = Some bf -> bound_name bf = key) ->
  forall (data : obj) (m : Model),
    ~ In k (obj_keys data) ->
    obj_get (state (snd (Model_set_loop h fields data m))) k = obj_get (state m) k.
Proof.
  intros Hnames. induction data as [|[key v] rest IH]; intros m Hout; simpl.
  - reflexivity.
  - simpl in Hout.
    assert (Hne : k <> key) by (intros ->; apply Hout; left; reflexivity).
    assert (Hrest : ~ In k (obj_keys rest)) by (intros Hin; apply Hout; right; exact Hin).
    destruct (is_undefined v); [apply IH; exact Hrest|].
    destruct (fields_lookup fields key) as [bf|] eqn:Ebf; [|reflexivity].
    rewrite (Hnames key bf Ebf).
    pose proof (Field_set_other (bound_field bf) h m key k v Hne) as Hother.
    destruct (Field_set (bound_field bf) h m key v) as [[[]|e] m1]; cbn [snd] in *.
    + rewrite IH by exact Hrest. exact Hother.
    + exact Hother.
Qed.

(** X11. Round trip of [Model.set] and [Model.unsafeGet]. For a table
    that binds each field under its own name and a data object with
    distinct keys, a [set] that returns has stored every defined value of
    the data: [unsafeGet] of each key returns the value given for it, and
    the keys the data does not mention read as before. *)
Theorem Model_set_then_unsafeGet (h : heap) (fields : ModelFields)
    (m m' : Model) (data : obj)
    (Hnames : forall key bf, fields_lookup fields key = Some bf -> bound_name bf = key)
    (Hkeys : List.NoDup (obj_keys data))
    (Hok : Model_set h fields m data = (Normal tt, m')) :
  (forall k v, In (k, v) data -> v <> VUndefined ->
     Model_unsafeGet fields m' k = Normal v) /\
  (forall k, ~ In k (obj_keys data) ->
     Field_unsafeGet m' k = Field_unsafeGet m k).
Proof.
  split.
  - revert m Hkeys Hok. unfold Model_set.
    induction data as [|[key v0] rest IH]; intros m Hkeys Hok k v Hin Hv.
    + destruct Hin.
    + simpl in Hkeys. apply List.NoDup_cons_iff in Hkeys.
      destruct Hkeys as [Hfresh Hkeys]. simpl in Hok.
      destruct (is_undefined v0) eqn:Eu.
      * destruct Hin as [Heq | Hin].
        -- injection Heq as -> ->. destruct v; try discriminate. congruence.
        -- exact (IH m Hkeys Hok k v Hin Hv).
      * destruct (fields_lookup fields key) as [bf|] eqn:Ebf; [|discriminate].
        destruct (Field_set (bound_field bf) h m (bound_name bf) v0)
          as [[[]|e] m1] eqn:Eset; [|discriminate].
        destruct Hin as [Heq | Hin].
        -- injection Heq as -> ->.
           unfold Model_unsafeGet. rewrite Ebf. f_equal.
           unfold Field_unsafeGet. rewrite (Hnames k bf Ebf) in *.
           replace m' with (snd (Model_set_loop h fields rest m1))
             by (rewrite Hok; reflexivity).
           rewrite (Model_set_loop_frame h fields k Hnames rest m1 Hfresh).
           apply Field_set_inv in Eset.
           destruct Eset as (_ & _ & o & _ & ->).
           cbn [state with_own with_state]. apply obj_get_set_same.
        -- exact (IH m1 Hkeys Hok k v Hin Hv).
  - intros k Hout. unfold Field_unsafeGet.
    replace m' with (snd (Model_set h fields m data)) by (rewrite Hok; reflexivity).
    apply Model_set_loop_frame; assumption.
Qed.

Lemma user_fields_names (key : string) (bf : BoundField) :
  fields_lookup user_fields key = Some bf -> bound_name bf = key.
Proof.
  unfold user_fields. cbn [fields_lookup].
  destruct (String.eqb "id" key) eqn:E1.
  { apply String.eqb_eq in E1. intros H. injection H as <-. exact E1. }
  destruct (String.eqb "name" key) eqn:E2.
  { apply String.eqb_eq in E2. intros H. injection H as <-. exact E2. }
  destruct (String.eqb "lastName" key) eqn:E3.
  { apply String.eqb_eq in E3. intros H. injection H as <-. exact E3. }
  discriminate.
Qed.

Lemma Model_set_then_unsafeGet_witness :
  Model_unsafeGet user_fields
    (snd (Model_set [] user_fields hydrated_martin
            [("name", VStr "Robert"); ("lastName", VStr "McDonald")]))
    "lastName" = Normal (VStr "McDonald").
Proof.
  refine (proj1 (Model_set_then_unsafeGet [] user_fields hydrated_martin _
                   [("name", VStr "Robert"); ("lastName", VStr "McDonald")]
                   user_fields_names _ eq_refl) "lastName" (VStr "McDonald") _ _).
  - repeat constructor; simpl; intuition discriminate.
  - right. left. reflexivity.
  - discriminate.
Defined.

Lemma Model_set_loop_app (h : heap) (fields : ModelFields) (d1 d2 : obj) :
  forall m : Model,
    Model_set_loop h fields (d1 ++ d2) m =
    match Model_set_loop h fields d1 m with
    | (Normal _, m1) => Model_set_loop h fields d2 m1
    | failure => failure
    end.
Proof.
  induction d1 as [|[key v] rest IH]; intros m; simpl.
  - reflexivity.
  - destruct (is_undefined v); [apply IH|].
    destruct (fields_lookup fields key) as [bf|]; [|reflexivity].
    destruct (Field_set (bound_field bf) h m (bound_name bf) v) as [[[]|e] m1];
      [apply IH | reflexivity].
Qed.

(** X12. [Model.set] is not atomic. When the entries before some key
    have been set and the write of that key fails, [set] throws that
    error and the model is left as the failed write left it: the earlier
    entries stay stored and logged, the later ones are never applied. *)
Theorem Model_set_not_atomic (h : heap) (fields : ModelFields) (m m1 : Model)
    (d1 d2 : obj) (k : string) (v : value) (bf : BoundField) (e : error)
    (Hfirst : Model_set h fields m d1 = (Normal tt, m1))
    (Hv : v <> VUndefined)
    (Hbf : fields_lookup fields k = Some bf)
    (Hfail : fst (Field_set (bound_field bf) h m1 (bound_name bf) v) = Abrupt e) :
  Model_set h fields m (d1 ++ (k, v) :: d2) =
  (Abrupt e, snd (Field_set (bound_field bf) h m1 (bound_name bf) v)).
Proof.
  unfold Model_set in *. rewrite Model_set_loop_app, Hfirst. simpl.
  destruct v; try congruence; cbn [is_undefined]; rewrite Hbf;
    destruct (Field_set (bound_field bf) h m1 (bound_name bf) _) as [[[]|e'] m2];
    cbn [fst snd] in *; congruence.
Qed.

Lemma Model_set_not_atomic_witness :
  Model_set [] user_fields hydrated_martin
    ([("lastName", VStr "McDonald")] ++ ("id", VStr "other") :: [("name", VStr "Bob")])
  = (Abrupt (VerveError FIELD_NOT_WRITABLE (mkParams "id" "User" "") []),
     snd (Model_set [] user_fields hydrated_martin [("lastName", VStr "McDonald")])).
Proof.
  exact (Model_set_not_atomic [] user_fields hydrated_martin _
           [("lastName", VStr "McDonald")] [("name", VStr "Bob")]
           "id" (VStr "other") (toBoundField "id" user_id_field) _
           eq_refl ltac:(discriminate) eq_refl eq_refl).
Defined.

(** ** Generating values for a model *)

Lemma Field_generate_other (f : Field) (h : heap) (m : Model) (key k : string) :
  k <> key ->
  obj_get (state (snd (Field_generate f h m key))) k = obj_get (state m) k.
Proof.
  intros Hne. unfold Field_generate.
  destruct (generator (options f)); [|reflexivity].
  destruct (truthy (Field_unsafeGet m key)); [reflexivity|].
  destruct (isExisting m); [reflexivity|].
  apply Field_set_other. exact Hne.
Qed.

Lemma Model_generate_loop_keeps (h : heap) (keys : option (list string))
    (k : string) (entries : ModelFields) :
  forall m : Model,
    obj_get (state m) k <> VUndefined ->
    obj_get (state (snd (Model_generate_loop h keys entries m))) k =
    obj_get (state m) k.
Proof.
  induction entries as [|[name bf] rest IH]; intros m Hdef; simpl.
  - reflexivity.
  - destruct (match keys with
              | Some ks => negb (includes ks (md_name (metadata (bound_field bf))))
              | None => false
              end); [apply IH; exact Hdef|].
    destruct (generator (options (bound_field bf))); [|apply IH; exact Hdef].
    destruct (is_undefined (Field_unsafeGet m (bound_name bf))) eqn:Eu;
      [|apply IH; exact Hdef].
    assert (Hne : k <> bound_name bf).
    { intros ->. unfold Field_unsafeGet in Eu.
      destruct (obj_get (state m) (bound_name bf)); try discriminate. congruence. }
    pose proof (Field_generate_other (bound_field bf) h m (bound_name bf) k Hne)
      as Hother.
    destruct (Field_generate (bound_field bf) h m (bound_name bf)) as [[[]|e] m1];
      cbn [snd] in *.
    + rewrite IH by (rewrite Hother; exact Hdef). exact Hother.
    + exact Hother.
Qed.

(** X13. [Model.generate] never overwrites. Whatever the table and the
    selection of keys, and whether or not it throws on the way, every key
    that holds a defined value before [generate] holds the same value
    after it; falsy values such as [''], [0] and [false] included. *)
Theorem Model_generate_keeps_initialised (h : heap) (fields : ModelFields)
    (m : Model) (keys : option ModelKeys) (k : string)
    (Hdef : Field_unsafeGet m k <> VUndefined) :
  Field_unsafeGet (snd (Model_generate h fields m keys)) k = Field_unsafeGet m k.
Proof.
  unfold Model_generate, Field_unsafeGet.
  apply Model_generate_loop_keeps. exact Hdef.
Qed.

Lemma Model_generate_keeps_initialised_witness :
  Field_unsafeGet
    (snd (Model_generate [] [("id", toBoundField "id" post_id_field)]
            empty_id_post None)) "id" = VStr "".
Proof.
  exact (Model_generate_keeps_initialised []
           [("id", toBoundField "id" post_id_field)] empty_id_post None "id"
           ltac:(discriminate)).
Defined.

Lemma Model_generate_loop_existing (h : heap) (keys : option (list string))
    (m : Model) (entries : ModelFields) :
  isExisting m = true ->
  Model_generate_loop h keys entries m =
  (match find (to_generate keys m) entries with
   | Some entry =>
       Abrupt (VerveError FIELD_CANNOT_GENERATE_EXISTING
                 (params_of (bound_field (snd entry)) (bound_name (snd entry))) [])
   | None => Normal tt
   end, m).
Proof.
  intros Hex. induction entries as [|[name bf] rest IH];
    cbn [Model_generate_loop find]; [reflexivity|].
  unfold to_generate at 1. cbn [snd].
  destruct (match keys with
            | Some ks => includes ks (md_name (metadata (bound_field bf)))
            | None => true
            end) eqn:Esel.
  - assert (Hskip : match keys with
                    | Some ks => negb (includes ks (md_name (metadata (bound_field bf))))
                    | None => false
                    end = false).
    { destruct keys; [rewrite Esel|]; reflexivity. }
    rewrite Hskip. cbn [andb].
    destruct (generator (options (bound_field bf))) as [g|] eqn:Eg;
      cbn [andb]; [|exact IH].
    destruct (is_undefined (Field_unsafeGet m (bound_name bf))) eqn:Eu; [|exact IH].
    rewrite (Field_generate_existing (bound_field bf) h m (bound_name bf) g Eg).
    + reflexivity.
    + unfold Field_unsafeGet in Eu.
      destruct (obj_get (state m) (bound_name bf)); try discriminate. reflexivity.
    + exact Hex.
  - assert (Hskip : match keys with
                    | Some ks => negb (includes ks (md_name (metadata (bound_field bf))))
                    | None => false
                    end = true).
    { destruct keys; [rewrite Esel; reflexivity | discriminate]. }
    rewrite Hskip. cbn [andb]. exact IH.
Qed.

(** X14. [Model.generate] on a hydrated model. A model built by [from]
    is never changed by [generate]. The call returns exactly when no
    field is at once selected by the keys, declared with a generator and
    uninitialised; otherwise it throws [FIELD_CANNOT_GENERATE_EXISTING]
    for the first such field of the table. *)
Theorem Model_generate_existing_unchanged (h : heap) (fields : ModelFields)
    (m : Model) (keys : option ModelKeys)
    (Hex : isExisting m = true) :
  snd (Model_generate h fields m keys) = m /\
  fst (Model_generate h fields m keys) =
    match find (to_generate (optional_keysArray keys) m) fields with
    | Some entry =>
        Abrupt (VerveError FIELD_CANNOT_GENERATE_EXISTING
                  (params_of (bound_field (snd entry)) (bound_name (snd entry))) [])
    | None => Normal tt
    end.
Proof.
  unfold Model_generate.
  rewrite (Model_generate_loop_existing h _ m fields Hex). split; reflexivity.
Qed.

Lemma Model_generate_existing_unchanged_witness :
  snd (Model_generate [] user_fields hydrated_martin None) = hydrated_martin /\
  fst (Model_generate [] user_fields hydrated_martin None) =
    Abrupt (VerveError FIELD_CANNOT_GENERATE_EXISTING (mkParams "id" "User" "") []) /\
  fst (Model_generate [] user_fields hydrated_martin (Some (OneKey "name")))
    = Normal tt.
Proof.
  split; [|split].
  - exact (proj1 (Model_generate_existing_unchanged [] user_fields hydrated_martin
                    None eq_refl)).
  - exact (proj2 (Model_generate_existing_unchanged [] user_fields hydrated_martin
                    None eq_refl)).
  - exact (proj2 (Model_generate_existing_unchanged [] user_fields hydrated_martin
                    (Some (OneKey "name")) eq_refl)).
Defined.

(** ** What [only] removes *)

Lemma Field_unset_cleared (m : Model) (key : string) :
  cleared key (Field_unset m key).
Proof.
  rewrite Field_unset_unfold. unfold cleared. cbn [state own changeLog].
  split; [|split].
  - rewrite obj_lookup_delete, eqb_string_refl. reflexivity.
  - rewrite own_lookup_delete, eqb_string_refl. reflexivity.
  - apply filter_erases.
Qed.

Lemma Field_unset_keeps_cleared (m : Model) (key n : string) :
  cleared n m -> cleared n (Field_unset m key).
Proof.
  intros (Hs & Ho & Hl). rewrite Field_unset_unfold. unfold cleared.
  cbn [state own changeLog]. split; [|split].
  - rewrite obj_lookup_delete. destruct (String.eqb key n); [reflexivity | exact Hs].
  - rewrite own_lookup_delete. destruct (String.eqb key n); [reflexivity | exact Ho].
  - induction Hl as [|log logs Hx _ IH]; simpl; [constructor|].
    destruct (negb (String.eqb (field log) key)); [constructor; assumption | exact IH].
Qed.

Lemma Model_only_loop_keeps_cleared (keys : list string) (n : string)
    (entries : ModelFields) :
  forall m : Model, cleared n m -> cleared n (Model_only_loop keys entries m).
Proof.
  induction entries as [|[name bf] rest IH]; intros m Hc; simpl.
  - exact Hc.
  - destruct (includes keys name); [apply IH; exact Hc|].
    destruct (is_IdField (kind (bound_field bf))); [apply IH; exact Hc|].
    apply IH. apply Field_unset_keeps_cleared. exact Hc.
Qed.

Lemma cleared_no_change (n : string) (m : Model) :
  cleared n m -> obj_lookup (getChanges m) n = None.
Proof.
  intros (_ & _ & Hl). rewrite getChanges_lookup. unfold reported, getChangeLog.
  rewrite find_none_Forall; [reflexivity|].
  apply List.Forall_rev. exact Hl.
Qed.

(** X15. What [only] removes. Every field of the table that is neither
    named in the keys nor an ID field is unset by [only]: afterwards its
    key reads [undefined], the instance has no property for it and
    [getChanges] does not report it. *)
Theorem Model_only_unsets_others (fields : ModelFields) (m : Model)
    (keys : ModelKeys) (k : string) (bf : BoundField)
    (Hin : In (k, bf) fields)
    (Hout : includes (keysArray keys) k = false)
    (Hid : is_IdField (kind (bound_field bf)) = false) :
  Field_unsafeGet (Model_only fields m keys) (bound_name bf) = VUndefined /\
  own_lookup (own (Model_only fields m keys)) (bound_name bf) = None /\
  obj_lookup (getChanges (Model_only fields m keys)) (bound_name bf) = None.
Proof.
  assert (Hc : cleared (bound_name bf) (Model_only fields m keys)).
  { unfold Model_only. revert m.
    induction fields as [|[name bf'] rest IH]; intros m; [destruct Hin|].
    simpl. destruct Hin as [Heq | Hin].
    - injection Heq as -> ->. rewrite Hout, Hid.
      apply Model_only_loop_keeps_cleared. apply Field_unset_cleared.
    - destruct (includes (keysArray keys) name); [apply IH; exact Hin|].
      destruct (is_IdField (kind (bound_field bf'))); apply IH; exact Hin. }
  split; [|split].
  - unfold Field_unsafeGet, obj_get. destruct Hc as (-> & _). reflexivity.
  - destruct Hc as (_ & Ho & _). exact Ho.
  - apply cleared_no_change. exact Hc.
Qed.

Lemma Model_only_unsets_others_witness :
  Field_unsafeGet (Model_only user_fields martin (OneKey "name")) "lastName"
    = VUndefined /\
  obj_lookup (getChanges (Model_only user_fields martin (OneKey "name"))) "lastName"
    = None.
Proof.
  destruct (Model_only_unsets_others user_fields martin (OneKey "name") "lastName"
              (toBoundField "lastName" lastName_field)
              (or_intror (or_intror (or_introl eq_refl))) eq_refl eq_refl)
    as (H1 & _ & H3).
  split; [exact H1 | exact H3].
Defined.

(** ** An invariant of the change log *)

Lemma MODEL_CHANGE_LOG_defined (m : Model) (c : ModelChangeLog) :
  log_defined m -> log_defined (MODEL_CHANGE_LOG m c).
Proof.
  unfold log_defined, MODEL_CHANGE_LOG. intros Hm.
  destruct (is_undefined (currentValue c)) eqn:Eu; cbn [changeLog with_changeLog].
  - induction Hm as [|log logs Hx _ IH]; simpl; [constructor|].
    destruct (negb (String.eqb (field log) (field c)));
      [constructor; assumption | exact IH].
  - apply Forall_app. split; [exact Hm|].
    constructor; [|constructor]. intros Hu. rewrite Hu in Eu. discriminate.
Qed.

Lemma Field_set_log_defined (f : Field) (h : heap) (m : Model) (key : string)
    (v : value) :
  log_defined m -> log_defined (snd (Field_set f h m key v)).
Proof.
  intros Hm. unfold Field_set.
  destruct (negb (Field_isWritable f h m key)); [exact Hm|].
  destruct (is_null v && negb (nullable (options f))); [exact Hm|].
  cbv zeta.
  destruct (assign_own _ key v); cbn [snd]; unfold log_defined;
    cbn [changeLog with_own with_state];
    apply MODEL_CHANGE_LOG_defined; exact Hm.
Qed.

Lemma Field_unset_log_defined (m : Model) (key : string) :
  log_defined m -> log_defined (Field_unset m key).
Proof.
  intros Hm. unfold Field_unset, log_defined.
  cbn [changeLog with_own with_state].
  apply MODEL_CHANGE_LOG_defined. exact Hm.
Qed.

Lemma Field_generate_log_defined (f : Field) (h : heap) (m : Model) (key : string) :
  log_defined m -> log_defined (snd (Field_generate f h m key)).
Proof.
  intros Hm. unfold Field_generate.
  destruct (generator (options f)); [|exact Hm].
  destruct (truthy (Field_unsafeGet m key)); [exact Hm|].
  destruct (isExisting m); [exact Hm|].
  apply Field_set_log_defined. exact Hm.
Qed.

Lemma reported_defined (initial : obj) (k : string) (logs : list ModelChangeLog)
    (v : value) :
  Forall (fun log => currentValue log <> VUndefined) logs ->
  reported initial k logs = Some v -> v <> VUndefined.
Proof.
  intros Hl. unfold reported.
  destruct (find (fun log => String.eqb (field log) k) logs) as [log|] eqn:Ef;
    [|discriminate].
  apply find_some in Ef. destruct Ef as [Hin _].
  destruct (strict_eq (obj_get initial k) (currentValue log)); [discriminate|].
  intros Hv. injection Hv as <-.
  rewrite List.Forall_forall in Hl. apply Hl. exact Hin.
Qed.

(** X16. The change log never records [undefined]. If no entry of the
    log has an undefined current value (as is the case for an empty log),
    this remains so after [set], [unset], [only], [except] and [generate],
    whatever their arguments and outcome; and [getChanges] then never
    maps a field to [undefined]. *)
Theorem changeLog_never_undefined (h : heap) (fields : ModelFields) (m : Model)
    (Hm : log_defined m) :
  (forall data, log_defined (snd (Model_set h fields m data))) /\
  (forall keys, log_defined (snd (Model_unset fields m keys))) /\
  (forall keys, log_defined (Model_only fields m keys)) /\
  (forall keys, log_defined (snd (Model_except fields m keys))) /\
  (forall keys, log_defined (snd (Model_generate h fields m keys))) /\
  (forall k v, obj_lookup (getChanges m) k = Some v -> v <> VUndefined).
Proof.
  repeat split.
  - intros data. unfold Model_set. revert m Hm.
    induction data as [|[key v] rest IH]; intros m Hm; simpl; [exact Hm|].
    destruct (is_undefined v); [apply IH; exact Hm|].
    destruct (fields_lookup fields key) as [bf|]; [|exact Hm].
    pose proof (Field_set_log_defined (bound_field bf) h m (bound_name bf) v Hm)
      as Hset.
    destruct (Field_set (bound_field bf) h m (bound_name bf) v) as [[[]|e] m1];
      cbn [snd] in *; [apply IH; exact Hset | exact Hset].
  - intros keys. unfold Model_unset. generalize (keysArray keys) as ks.
    intros ks. revert m Hm.
    induction ks as [|key rest IH]; intros m Hm; simpl; [exact Hm|].
    destruct (fields_lookup fields key) as [bf|]; [|exact Hm].
    apply IH. apply Field_unset_log_defined. exact Hm.
  - intros keys. unfold Model_only. generalize (keysArray keys) as ks.
    intros ks. revert m Hm.
    induction fields as [|[name bf] rest IH]; intros m Hm; simpl; [exact Hm|].
    destruct (includes ks name); [apply IH; exact Hm|].
    destruct (is_IdField (kind (bound_field bf))); [apply IH; exact Hm|].
    apply IH. apply Field_unset_log_defined. exact Hm.
  - intros keys. unfold Model_except. generalize (keysArray keys) as ks.
    intros ks. revert m Hm.
    induction fields as [|[name bf] rest IH]; intros m Hm; simpl; [exact Hm|].
    destruct (negb (includes ks name)); [apply IH; exact Hm|].
    destruct (is_IdField (kind (bound_field bf))); [exact Hm|].
    apply IH. apply Field_unset_log_defined. exact Hm.
  - intros keys. unfold Model_generate.
    generalize (optional_keysArray keys) as ks. intros ks. revert m Hm.
    induction fields as [|[name bf] rest IH]; intros m Hm; simpl; [exact Hm|].
    destruct (match ks with
              | Some ks0 => negb (includes ks0 (md_name (metadata (bound_field bf))))
              | None => false
              end); [apply IH; exact Hm|].
    destruct (generator (options (bound_field bf))); [|apply IH; exact Hm].
    destruct (is_undefined (Field_unsafeGet m (bound_name bf)));
      [|apply IH; exact Hm].
    pose proof (Field_generate_log_defined (bound_field bf) h m (bound_name bf) Hm)
      as Hgen.
    destruct (Field_generate (bound_field bf) h m (bound_name bf)) as [[[]|e] m1];
      cbn [snd] in *; [apply IH; exact Hgen | exact Hgen].
  - intros k v. rewrite getChanges_lookup. apply reported_defined.
    unfold getChangeLog. apply List.Forall_rev. exact Hm.
Qed.

Lemma changeLog_never_undefined_witness :
  log_defined martin /\
  log_defined (snd (Model_unset user_fields martin (OneKey "name"))).
Proof.
  assert (Hm : log_defined martin).
  { unfold log_defined, martin. cbn [changeLog].
    repeat constructor; discriminate. }
  split; [exact Hm|].
  destruct (changeLog_never_undefined [] user_fields martin Hm) as (_ & H & _).
  exact (H (OneKey "name")).
Defined.

(** ** Changes after a write *)

(** X17. [getChanges] after a write. After a successful [set] of a
    defined value, [getChanges] reports that value for the key unless it
    is strictly equal to the baseline value of the key, in which case the
    key is not reported at all: writing a primitive back to its baseline
    withdraws the change. What is reported for the other keys is as
    before. *)
Theorem getChanges_after_set (f : Field) (h : heap) (m m' : Model)
    (key : string) (v : value)
    (Hset : Field_set f h m key v = (Normal tt, m'))
    (Hv : v <> VUndefined) :
  obj_lookup (getChanges m') key =
    (if strict_eq (obj_get (initialState m) key) v then None else Some v) /\
  (forall k, k <> key ->
     obj_lookup (getChanges m') k = obj_lookup (getChanges m) k).
Proof.
  apply Field_set_inv in Hset. destruct Hset as (_ & _ & o & _ & ->).
  assert (Hlog : getChangeLog
                   (with_own
                      (with_state
                         (MODEL_CHANGE_LOG m (mkChange key v (obj_get (state m) key)))
                         (obj_set (state m) key v)) o)
                 = mkChange key v (obj_get (state m) key) :: getChangeLog m).
  { unfold getChangeLog. cbn [changeLog with_own with_state].
    rewrite changeLog_MODEL_CHANGE_LOG_defined.
    - rewrite rev_app_distr. reflexivity.
    - cbn [currentValue]. destruct v; try reflexivity. congruence. }
  assert (Hinit : initialState
                    (with_own
                       (with_state
                          (MODEL_CHANGE_LOG m (mkChange key v (obj_get (state m) key)))
                          (obj_set (state m) key v)) o)
                  = initialState m).
  { cbn [initialState with_own with_state]. apply initialState_MODEL_CHANGE_LOG. }
  split.
  - rewrite getChanges_lookup, Hlog, Hinit. unfold reported.
    cbn [find field]. rewrite eqb_string_refl. reflexivity.
  - intros k Hk. rewrite !getChanges_lookup, Hlog, Hinit. unfold reported.
    cbn [find field].
    assert (Hne : String.eqb key k = false) by (apply String.eqb_neq; congruence).
    rewrite Hne. reflexivity.
Qed.

Lemma getChanges_after_set_witness :
  obj_lookup
    (getChanges (snd (Field_set name_field [] hydrated_martin "name" (VStr "Robert"))))
    "name" = Some (VStr "Robert") /\
  obj_lookup
    (getChanges
       (snd (Field_set name_field []
               (snd (Field_set name_field [] hydrated_martin "name" (VStr "Robert")))
               "name" (VStr "Martin"))))
    "name" = None.
Proof.
  split.
  - exact (proj1 (getChanges_after_set name_field [] hydrated_martin _ "name"
                    (VStr "Robert") eq_refl ltac:(discriminate))).
  - exact (proj1 (getChanges_after_set name_field []
                    (snd (Field_set name_field [] hydrated_martin "name"
                            (VStr "Robert")))
                    _ "name" (VStr "Martin") eq_refl ltac:(discriminate))).
Defined.

(** ** Emptiness and presence of several fields *)

(** X18. [hasEmpty] and [hasPresent] are not opposites. Both answer
    [true] exactly when the keys select no field of the table (an unknown
    name, or an empty list of keys); as soon as one field is selected, at
    most one of them answers [true]. *)
Theorem hasEmpty_hasPresent_both (h : heap) (fields : ModelFields) (m : Model)
    (keys : ModelKeys) :
  (Model_hasEmpty h fields m keys = Some true /\
   Model_hasPresent h fields m keys = Some true) <->
  Forall (fun entry =>
            includes (keysArray keys) (md_name (metadata (bound_field (snd entry))))
            = false) fields.
Proof.
  unfold Model_hasEmpty, Model_hasPresent.
  generalize (keysArray keys) as ks. intros ks.
  induction fields as [|[name bf] rest IH]; simpl.
  - split; [intros _; constructor | intros _; split; reflexivity].
  - destruct (includes ks (md_name (metadata (bound_field bf)))) eqn:Ei;
      cbn [negb].
    + split.
      * intros [He Hp]. exfalso. unfold Field_isPresent in Hp.
        destruct (Field_isEmpty h m (bound_name bf)) as [[|]|];
          cbn [negb] in *; discriminate.
      * intros Hall. inversion Hall as [|x l Hx _]. simpl in Hx. congruence.
    + rewrite IH. split.
      * intros Hall. constructor; [exact Ei | exact Hall].
      * intros Hall. inversion Hall. assumption.
Qed.

(** ** Validating a model *)

Lemma Model_validate_loop_grows (h : heap) (keys : option (list string))
    (m : Model) (entries : ModelFields) :
  forall errors errors',
    Model_validate_loop h keys entries m errors = Normal errors' ->
    length errors <= length errors'.
Proof.
  induction entries as [|[name bf] rest IH]; intros errors errors'; simpl.
  - intros H. injection H as <-. lia.
  - destruct (match keys with
              | Some ks => negb (includes ks (md_name (metadata (bound_field bf))))
              | None => false
              end); [apply IH|].
    destruct (Field_validate (bound_field bf) h m (bound_name bf))
      as [fieldErrors|e]; [|discriminate].
    intros H. apply IH in H. unfold errors_merge in H.
    rewrite length_app in H. lia.
Qed.

Lemma Field_get_validated (f : Field) (h : heap) (m : Model) (key : string) :
  Field_validate f h m key = Normal [] ->
  throws_code (Field_get f h m key) FIELD_VALIDATORS_FAILED = false.
Proof.
  intros Hval. unfold Field_get. rewrite Hval.
  destruct (negb (Field_isReadable f h m key)); [reflexivity|].
  destruct (is_undefined (obj_get (state m) key)); reflexivity.
Qed.

(** X19. A clean [validate] and [get]. When [validate()] on the whole
    model returns an empty list of errors, no field of the table fails to
    be read with [FIELD_VALIDATORS_FAILED]. *)
Theorem Model_validate_clean_get (h : heap) (fields : ModelFields) (m : Model)
    (Hclean : Model_validate h fields m None = Normal []) :
  Forall (fun entry =>
            throws_code
              (Field_get (bound_field (snd entry)) h m (bound_name (snd entry)))
              FIELD_VALIDATORS_FAILED = false) fields.
Proof.
  unfold Model_validate in Hclean. cbn [optional_keysArray] in Hclean.
  induction fields as [|[name bf] rest IH]; [constructor|].
  simpl in Hclean.
  destruct (Field_validate (bound_field bf) h m (bound_name bf))
    as [fieldErrors|e] eqn:Ev; [|discriminate].
  destruct fieldErrors as [|x fieldErrors].
  - constructor; [apply Field_get_validated; exact Ev | apply IH; exact Hclean].
  - apply Model_validate_loop_grows in Hclean. simpl in Hclean. lia.
Qed.

Lemma Model_validate_clean_get_witness :
  Model_validate [] user_fields hydrated_martin None = Normal [] /\
  Forall (fun entry =>
            throws_code
              (Field_get (bound_field (snd entry)) [] hydrated_martin
                 (bound_name (snd entry)))
              FIELD_VALIDATORS_FAILED = false) user_fields.
Proof.
  split; [reflexivity|].
  exact (Model_validate_clean_get [] user_fields hydrated_martin eq_refl).
Defined.

(** ** Construction *)

(** A state in which every stored value is defined. *)
Lemma obj_set_defined (o : obj) (k : string) (v : value) :
  v <> VUndefined ->
  Forall (fun p => snd p <> VUndefined) o ->
  Forall (fun p => snd p <> VUndefined) (obj_set o k v).
Proof.
  intros Hv Ho. induction Ho as [|[k0 v0] o Hx Ho IH]; simpl.
  - constructor; [exact Hv | constructor].
  - destruct (String.eqb k0 k); constructor; simpl; assumption.
Qed.

Lemma ValueInitializer_invariants (data : obj) (isHydrating : bool)
    (entries : ModelFields) :
  forall m : Model,
    let m' := ValueInitializer_initialize entries m data isHydrating in
    initializer m' = initializer m /\
    initialState m' = initialState m /\
    changeLog m' = changeLog m /\
    (Forall (fun p => snd p <> VUndefined) (state m) ->
     Forall (fun p => snd p <> VUndefined) (state m')).
Proof.
  induction entries as [|[fieldKey bf] rest IH]; intros m; simpl.
  - repeat split. intros H. exact H.
  - destruct (compute (options (bound_field bf))); [apply IH|].
    destruct (is_undefined (getInitialValue _ _ _)) eqn:Eu; [apply IH|].
    match goal with
    | |- context [ValueInitializer_initialize rest ?m2 data isHydrating] =>
        destruct (IH m2) as (Hi & Hs & Hl & Hd)
    end.
    rewrite Hi, Hs, Hl. repeat split.
    intros Hdef. apply Hd. cbn [state with_own with_state].
    apply obj_set_defined; [|exact Hdef].
    intros Hv. rewrite Hv in Eu. discriminate.
Qed.

Lemma ValueInitializer_hydrates_from_data (data : obj) (entries : ModelFields) :
  forall m : Model,
    (forall k v, obj_lookup (state m) k = Some v -> obj_lookup data k = Some v) ->
    forall k v,
      obj_lookup (state (ValueInitializer_initialize entries m data true)) k = Some v ->
      obj_lookup data k = Some v.
Proof.
  induction entries as [|[fieldKey bf] rest IH]; intros m Hm; simpl.
  - exact Hm.
  - destruct (compute (options (bound_field bf))); [apply IH; exact Hm|].
    destruct (is_undefined (getInitialValue _ _ _)) eqn:Eu; [apply IH; exact Hm|].
    apply IH. cbn [state with_own with_state]. intros k v.
    rewrite obj_lookup_set.
    destruct (String.eqb (replace_dollar fieldKey) k) eqn:Ek; [|apply Hm].
    apply String.eqb_eq in Ek. subst k.
    intros Hv. injection Hv as <-.
    revert Eu. unfold getInitialValue, obj_get.
    destruct (obj_lookup data (replace_dollar fieldKey)) as [x|]; [|discriminate].
    destruct x; try discriminate; reflexivity.
Qed.

Lemma ValidationInitializer_loop_frame (reg : AssociationRegistry) (h : heap)
    (fields : ModelFields) (names : list string) :
  forall m modelName errors c m',
    ValidationInitializer_loop reg h fields names m modelName errors = Some (c, m') ->
    initializer m' = initializer m /\
    state m' = state m /\
    initialState m' = initialState m /\
    changeLog m' = changeLog m.
Proof.
  induction names as [|name rest IH]; intros m modelName errors c m'; simpl.
  - destruct (errors_isPresent errors); intros H; injection H as <- <-;
      repeat split.
  - destruct (fields_lookup fields (makeFieldInstanceKey name)) as [fld|].
    + destruct (is_undefined (Field_unsafeGet m (bound_name fld))); [apply IH|].
      destruct (validateField reg h m name fld) as [[fieldErrors|e]|];
        [| |discriminate].
      * intros H. apply IH in H. exact H.
      * intros H. injection H as <- <-. repeat split.
    + intros H. injection H as <- <-. repeat split.
Qed.

Lemma Model_make_loop_spec (keys : list string) :
  forall m : Model,
    (forall k, In k keys -> obj_get (state m) k <> VUndefined) ->
    let m' := Model_make_loop keys m in
    initializer m' = initializer m /\
    state m' = state m /\
    initialState m' = initialState m /\
    changeLog m' =
      changeLog m ++ map (fun k => mkChange k (obj_get (state m) k) VUndefined) keys.
Proof.
  induction keys as [|key rest IH]; intros m Hdef; simpl.
  - rewrite app_nil_r. repeat split.
  - assert (Hkey : is_undefined (obj_get (state m) key) = false).
    { specialize (Hdef key (or_introl eq_refl)).
      destruct (obj_get (state m) key); try reflexivity. congruence. }
    assert (Hstep : MODEL_CHANGE_LOG m (mkChange key (obj_get (state m) key) VUndefined)
                    = with_changeLog m
                        (changeLog m ++
                         [mkChange key (obj_get (state m) key) VUndefined])).
    { unfold MODEL_CHANGE_LOG. cbn [currentValue]. rewrite Hkey. reflexivity. }
    rewrite Hstep.
    destruct (IH (with_changeLog m
                    (changeLog m ++
                     [mkChange key (obj_get (state m) key) VUndefined])))
      as (Hi & Hs & Hb & Hl).
    { intros k Hin. cbn [state with_changeLog]. apply Hdef. right. exact Hin. }
    rewrite Hi, Hs, Hb, Hl. cbn [initializer state initialState changeLog with_changeLog].
    rewrite <- app_assoc. repeat split.
Qed.

Lemma obj_lookup_keys (o : obj) (k : string) :
  obj_lookup o k = None <-> ~ In k (obj_keys o).
Proof.
  induction o as [|[k0 v0] o IH]; simpl.
  - intuition.
  - destruct (String.eqb k0 k) eqn:E.
    + apply String.eqb_eq in E. subst k0. split; [discriminate|].
      intros H. exfalso. apply H. left. reflexivity.
    + apply String.eqb_neq in E. rewrite IH. intuition.
Qed.

Lemma obj_lookup_defined (o : obj) (k : string) (v : value) :
  Forall (fun p => snd p <> VUndefined) o ->
  obj_lookup o k = Some v -> v <> VUndefined.
Proof.
  intros Ho. induction Ho as [|[k0 v0] o Hx _ IH]; simpl; [discriminate|].
  destruct (String.eqb k0 k); [|exact IH].
  intros H. injection H as <-. exact Hx.
Qed.

(** X20. A made model reports its whole state. When [make] returns, the
    model is new, its baseline is empty, and [getChanges] reports, for
    every key, exactly the value the state holds for it: each seeded
    value (given, default or generated) counts as a change. *)
Theorem make_reports_state (reg : AssociationRegistry) (h : heap)
    (fields : ModelFields) (schema : list string) (ctx : value) (data : obj)
    (m : Model)
    (Hmake : Model_make reg h fields schema ctx data = Some (Normal tt, m)) :
  isNew m = true /\
  initialState m = [] /\
  (forall k, obj_lookup (getChanges m) k = obj_lookup (state m) k).
Proof.
  unfold Model_make in Hmake. cbv zeta in Hmake.
  set (instance := with_initializer (new_Model ctx) InitMake) in *.
  set (seeded := ValueInitializer_initialize fields instance data false) in *.
  destruct (ValueInitializer_invariants data false fields instance)
    as (Hi1 & Hb1 & Hl1 & Hd1).
  fold seeded in Hi1, Hb1, Hl1, Hd1.
  specialize (Hd1 (List.Forall_nil _)).
  destruct (ValidationInitializer_initialize reg h fields schema seeded)
    as [[[[]|e] validated]|] eqn:Ev; try discriminate.
  injection Hmake as <-.
  apply ValidationInitializer_loop_frame in Ev.
  destruct Ev as (Hi2 & Hs2 & Hb2 & Hl2).
  assert (Hdef : Forall (fun p => snd p <> VUndefined) (state validated))
    by (rewrite Hs2; exact Hd1).
  destruct (Model_make_loop_spec (obj_keys (state validated)) validated)
    as (Hi3 & Hs3 & Hb3 & Hl3).
  { intros k Hin. unfold obj_get.
    destruct (obj_lookup (state validated) k) as [v|] eqn:El.
    - exact (obj_lookup_defined _ _ _ Hdef El).
    - apply obj_lookup_keys in El. contradiction. }
  split; [|split].
  - unfold isNew. rewrite Hi3, Hi2, Hi1. reflexivity.
  - rewrite Hb3, Hb2, Hb1. reflexivity.
  - intros k. rewrite getChanges_lookup. unfold reported, getChangeLog.
    rewrite Hb3, Hb2, Hb1, Hl3, Hl2, Hl1, Hs3.
    cbn [initialState changeLog instance with_initializer new_Model app].
    destruct (find (fun log => String.eqb (field log) k)
                (rev (map (fun k0 => mkChange k0 (obj_get (state validated) k0)
                                       VUndefined)
                        (obj_keys (state validated))))) as [log|] eqn:Ef.
    + apply find_some in Ef. destruct Ef as [Hin Hk].
      apply in_rev, in_map_iff in Hin. destruct Hin as (k0 & <- & Hin).
      cbn [field currentValue] in *. apply String.eqb_eq in Hk. subst k0.
      unfold obj_get at 2.
      destruct (obj_lookup (state validated) k) as [v|] eqn:El.
      * pose proof (obj_lookup_defined _ _ _ Hdef El) as Hv.
        unfold obj_get. rewrite El. cbn [obj_lookup].
        destruct v; try reflexivity. congruence.
      * apply obj_lookup_keys in El. contradiction.
    + symmetry. apply obj_lookup_keys. intros Hin.
      assert (Hnone : String.eqb k k = false).
      { apply (find_none _ _ Ef
                 (mkChange k (obj_get (state validated) k) VUndefined)).
        apply (proj1 (in_rev _ _)). apply in_map_iff.
        exists k. split; [reflexivity | exact Hin]. }
      rewrite eqb_string_refl in Hnone. discriminate.
Qed.

Lemma make_reports_state_witness :
  exists m,
    Model_make empty_registry [] user_instance_fields ["id"; "name"; "lastName"]
      VUndefined [("name", VStr "Martin")] = Some (Normal tt, m) /\
    getChanges m = [("name", VStr "Martin"); ("id", VStr "some-id")] /\
    obj_lookup (getChanges m) "id" = obj_lookup (state m) "id".
Proof.
  eexists. split; [reflexivity|]. split; [reflexivity|].
  refine (proj2 (proj2 (make_reports_state empty_registry [] user_instance_fields
                          ["id"; "name"; "lastName"] VUndefined
                          [("name", VStr "Martin")] _ eq_refl)) "id").
Defined.

(** X21. A hydrated model reports nothing and holds only what it was
    given. When [from] returns, the model is an existing one, its change
    log is empty, [getChanges] is empty, and every value of its state is
    the value the data gave for that key: no default is applied and no
    generator is run. *)
Theorem from_reports_nothing (reg : AssociationRegistry) (h h' : heap)
    (fuel : nat) (fields : ModelFields) (schema : list string) (ctx : value)
    (data : obj) (m : Model)
    (Hfrom : Model_from reg h fuel fields schema ctx data = Some (Normal tt, m, h')) :
  isExisting m = true /\
  changeLog m = [] /\
  getChanges m = [] /\
  (forall k v, obj_lookup (state m) k = Some v -> obj_lookup data k = Some v).
Proof.
  unfold Model_from in Hfrom. cbv zeta in Hfrom.
  set (instance := with_initializer (new_Model ctx) InitFrom) in *.
  set (seeded := ValueInitializer_initialize fields instance data true) in *.
  destruct (ValueInitializer_invariants data true fields instance)
    as (Hi1 & _ & Hl1 & _).
  fold seeded in Hi1, Hl1.
  pose proof (ValueInitializer_hydrates_from_data data fields instance) as Hdata.
  fold seeded in Hdata.
  destruct (ValidationInitializer_initialize reg h fields schema seeded)
    as [[[[]|e] validated]|] eqn:Ev; try discriminate.
  apply ValidationInitializer_loop_frame in Ev.
  destruct Ev as (Hi2 & Hs2 & _ & Hl2).
  unfold MODEL_INITIAL_STATE in Hfrom.
  destruct (deepClone fuel h (state validated)) as [[[s'|e] h1]|];
    try discriminate.
  injection Hfrom as <- _.
  assert (Hlog : changeLog (with_initialState validated s') = []).
  { cbn [changeLog with_initialState]. rewrite Hl2, Hl1. reflexivity. }
  split; [|split; [exact Hlog|split]].
  - unfold isExisting. cbn [initializer with_initialState].
    rewrite Hi2, Hi1. reflexivity.
  - unfold getChanges, getChangeLog. rewrite Hlog. reflexivity.
  - intros k v. cbn [state with_initialState]. rewrite Hs2.
    apply Hdata. intros k0 v0. discriminate.
Qed.

Lemma from_reports_nothing_witness :
  exists m h',
    Model_from empty_registry [] 3 user_instance_fields ["id"; "name"; "lastName"]
      VUndefined [("name", VStr "Martin")] = Some (Normal tt, m, h') /\
    state m = [("name", VStr "Martin")] /\
    getChanges m = [].
Proof.
  eexists. eexists. split; [reflexivity|]. split; [reflexivity|].
  refine (proj1 (proj2 (proj2 (from_reports_nothing empty_registry [] _ 3
                                 user_instance_fields ["id"; "name"; "lastName"]
                                 VUndefined [("name", VStr "Martin")] _ eq_refl)))).
Defined.

(** ** Binding the fields of a schema *)

Lemma fields_lookup_set (fields : ModelFields) (k k' : string) (bf : BoundField) :
  fields_lookup (fields_set fields k bf) k' =
  if String.eqb k k' then Some bf else fields_lookup fields k'.
Proof.
  induction fields as [|[k0 bf0] fields IH]; simpl.
  - reflexivity.
  - destruct (String.eqb k0 k) eqn:E0; simpl.
    + apply String.eqb_eq in E0. subst k0.
      destruct (String.eqb k k'); reflexivity.
    + destruct (String.eqb k0 k') eqn:E1.
      * apply String.eqb_eq in E1. subst k0.
        rewrite eqb_string_sym, E0. reflexivity.
      * exact IH.
Qed.

Lemma FieldInitializer_initialize_lookup (name : string) (schema : ModelSchema) :
  forall fields : ModelFields,
    fields_lookup (FieldInitializer_initialize schema fields) name =
    match fields_lookup fields name with
    | Some bf => Some bf
    | None =>
        if includes Object_prototype_keys name then None
        else
          match find (fun entry => String.eqb (fst entry) name) schema with
          | Some entry => Some (toBoundField name (snd entry))
          | None => None
          end
    end.
Proof.
  induction schema as [|[fieldName fieldInstance] rest IH]; intros fields;
    cbn [FieldInitializer_initialize find fst snd].
  - destruct (fields_lookup fields name); [reflexivity|].
    destruct (includes Object_prototype_keys name); reflexivity.
  - unfold fields_truthy.
    destruct (fields_lookup fields fieldName) as [bound|] eqn:Eb.
    + rewrite IH. destruct (fields_lookup fields name) eqn:En; [reflexivity|].
      destruct (String.eqb fieldName name) eqn:E; [|reflexivity].
      apply String.eqb_eq in E. subst fieldName. congruence.
    + destruct (includes Object_prototype_keys fieldName) eqn:Ep.
      * rewrite IH. destruct (fields_lookup fields name) eqn:En; [reflexivity|].
        destruct (String.eqb fieldName name) eqn:E; [|reflexivity].
        apply String.eqb_eq in E. subst fieldName. rewrite Ep. reflexivity.
      * rewrite IH, fields_lookup_set.
        destruct (String.eqb fieldName name) eqn:E.
        -- apply String.eqb_eq in E. subst fieldName. rewrite Eb, Ep. reflexivity.
        -- reflexivity.
Qed.

(** X22. The table of bound fields. Starting from an empty table,
    [FieldInitializer] binds each name of the schema that is not a member
    of [Object.prototype] to the field that the schema gives for it (the
    first, should a name occur twice), bound under that very name; a
    field named after a member of [Object.prototype] ([toString],
    [constructor], [valueOf] and the like) is never bound; nothing else
    is bound, so every entry of the table is bound under its own key. *)
Theorem FieldInitializer_binds_by_name (schema : ModelSchema) :
  (forall name,
     fields_lookup (FieldInitializer_initialize schema []) name =
     if includes Object_prototype_keys name then None
     else
       match find (fun entry => String.eqb (fst entry) name) schema with
       | Some entry => Some (toBoundField name (snd entry))
       | None => None
       end) /\
  (forall key bf,
     fields_lookup (FieldInitializer_initialize schema []) key = Some bf ->
     bound_name bf = key).
Proof.
  assert (H : forall name,
            fields_lookup (FieldInitializer_initialize schema []) name =
            if includes Object_prototype_keys name then None
            else
              match find (fun entry => String.eqb (fst entry) name) schema with
              | Some entry => Some (toBoundField name (snd entry))
              | None => None
              end).
  { intros name. rewrite FieldInitializer_initialize_lookup. reflexivity. }
  split; [exact H|].
  intros key bf. rewrite H.
  destruct (includes Object_prototype_keys key); [discriminate|].
  destruct (find (fun entry => String.eqb (fst entry) key) schema); [|discriminate].
  intros Hbf. injection Hbf as <-. reflexivity.
Qed.

Lemma InstanceKeys_initialize_lookup (key : string) (schema : ModelSchema) :
  forall fields : ModelFields,
    fields_lookup (InstanceKeys.FieldInitializer_initialize schema fields) key =
    match fields_lookup fields key with
    | Some bf => Some bf
    | None =>
        match find (fun entry => String.eqb (makeFieldInstanceKey (fst entry)) key)
                schema with
        | Some entry => Some (toBoundField (fst entry) (snd entry))
        | None => None
        end
    end.
Proof.
  induction schema as [|[fieldName fieldInstance] rest IH]; intros fields; simpl.
  - destruct (fields_lookup fields key); reflexivity.
  - rewrite IH. unfold InstanceKeys.FieldInitializer_initializeField.
    destruct (fields_lookup fields (makeFieldInstanceKey fieldName))
      as [bound|] eqn:Eb.
    + destruct (fields_lookup fields key) eqn:En; [reflexivity|].
      destruct (String.eqb (makeFieldInstanceKey fieldName) key) eqn:E;
        [|reflexivity].
      apply String.eqb_eq in E. rewrite E in Eb. congruence.
    + rewrite fields_lookup_set.
      destruct (String.eqb (makeFieldInstanceKey fieldName) key) eqn:E.
      * apply String.eqb_eq in E. rewrite E in Eb. rewrite Eb. reflexivity.
      * reflexivity.
Qed.

(** X23. The table keyed by instance keys. Starting from an empty table,
    the initializer that keys the table by [makeFieldInstanceKey] binds
    under each instance key the first schema entry that has this instance
    key, under the entry's own name. Hence the lookup
    [fields[makeFieldInstanceKey(name)]] of [ValidationInitializer] finds a
    bound field for every name of the schema. *)
Theorem InstanceKeys_binds_by_instance_key (schema : ModelSchema) :
  (forall key,
     fields_lookup (InstanceKeys.FieldInitializer_initialize schema []) key =
     match find (fun entry => String.eqb (makeFieldInstanceKey (fst entry)) key)
             schema with
     | Some entry => Some (toBoundField (fst entry) (snd entry))
     | None => None
     end) /\
  (forall name f,
     In (name, f) schema ->
     fields_lookup (InstanceKeys.FieldInitializer_initialize schema [])
       (makeFieldInstanceKey name) <> None).
Proof.
  assert (H : forall key,
            fields_lookup (InstanceKeys.FieldInitializer_initialize schema []) key =
            match find (fun entry => String.eqb (makeFieldInstanceKey (fst entry)) key)
                    schema with
            | Some entry => Some (toBoundField (fst entry) (snd entry))
            | None => None
            end).
  { intros key. rewrite InstanceKeys_initialize_lookup. reflexivity. }
  split; [exact H|].
  intros name f Hin. rewrite H.
  destruct (find (fun entry =>
                    String.eqb (makeFieldInstanceKey (fst entry))
                      (makeFieldInstanceKey name)) schema) eqn:Ef; [discriminate|].
  exfalso. pose proof (find_none _ _ Ef (name, f) Hin) as Hnone.
  cbn [fst] in Hnone. rewrite eqb_string_refl in Hnone. discriminate.
Qed.

(** ** Instance keys and field names *)

(** X24. From a field name to its instance key and back.
    [makeFieldInstanceKey] is idempotent, and [ValueInitializer] recovers
    the field name from the instance key by removing the first dollar
    sign: that gives back the name, unless the name itself starts with a
    dollar sign, in which case it gives the name without it. *)
Theorem makeFieldInstanceKey_roundtrip (key : string) :
  makeFieldInstanceKey (makeFieldInstanceKey key) = makeFieldInstanceKey key /\
  replace_dollar (makeFieldInstanceKey key) =
    match key with
    | String "$" rest => rest
    | _ => key
    end.
Proof.
  destruct key as [|c rest]; [split; reflexivity|].
  destruct (Ascii.eqb c "$") eqn:Ec.
  - apply Ascii.eqb_eq in Ec. subst c. split; reflexivity.
  - assert (Hmk : makeFieldInstanceKey (String c rest) = String "$" (String c rest)).
    { destruct c as [[|] [|] [|] [|] [|] [|] [|] [|]];
        try reflexivity; discriminate Ec. }
    rewrite Hmk. split; [reflexivity|].
    destruct c as [[|] [|] [|] [|] [|] [|] [|] [|]];
      try reflexivity; discriminate Ec.
Qed.

(** ** The association registry *)

Lemma registered_lookup_set (l : list (string * ValidatorFn)) (k k' : string)
    (v : ValidatorFn) :
  registered_lookup (registered_set l k v) k' =
  if String.eqb k k' then Some v else registered_lookup l k'.
Proof.
  induction l as [|[k0 v0] l IH]; simpl.
  - reflexivity.
  - destruct (String.eqb k0 k) eqn:E0; simpl.
    + apply String.eqb_eq in E0. subst k0.
      destruct (String.eqb k k'); reflexivity.
    + destruct (String.eqb k0 k') eqn:E1.
      * apply String.eqb_eq in E1. subst k0.
        rewrite eqb_string_sym, E0. reflexivity.
      * exact IH.
Qed.

(** X25. Registering an association and finding its validator. After
    [register], [getValidator] for the source model and field of the
    association returns the validator compiled from its two paths,
    replacing any earlier one; every other registration is found as
    before; and the association is appended to the list of associations,
    earlier ones for the same field included. *)
Theorem register_then_getValidator (reg : AssociationRegistry) (a : Association) :
  getValidator (register reg a) (sourceModel a) (fieldName a) =
    Some (mkValidatorFn (sourcePath a) (targetPath a)) /\
  (forall source name,
     registry_key source name <> registry_key (sourceModel a) (fieldName a) ->
     getValidator (register reg a) source name = getValidator reg source name) /\
  associations (register reg a) = associations reg ++ [a].
Proof.
  unfold getValidator, register. cbn [registered associations].
  split; [|split].
  - rewrite registered_lookup_set, eqb_string_refl. reflexivity.
  - intros source name Hne. rewrite registered_lookup_set.
    assert (E : String.eqb (registry_key (sourceModel a) (fieldName a))
                  (registry_key source name) = false)
      by (apply String.eqb_neq; congruence).
    rewrite E. reflexivity.
  - reflexivity.
Qed.

(** ** Resolving a path *)

Lemma split_dot_nonempty (s : string) : split_dot s <> [].
Proof.
  destruct s as [|c rest]; simpl; [discriminate|].
  destruct (Ascii.eqb c "."); [discriminate|].
  destruct (split_dot rest); discriminate.
Qed.

Lemma split_dot_append (p q : string) :
  split_dot (String.append p (String "." q)) = split_dot p ++ split_dot q.
Proof.
  induction p as [|c p IH]; simpl.
  - reflexivity.
  - destruct (Ascii.eqb c "."); [rewrite IH; reflexivity|].
    rewrite IH. pose proof (split_dot_nonempty p) as Hne.
    destruct (split_dot p); [congruence | reflexivity].
Qed.

Lemma resolve_segments_app (h : heap) (l1 l2 : list string) :
  forall v,
    resolve_segments h v (l1 ++ l2) =
    match resolve_segments h v l1 with
    | Some x => resolve_segments h x l2
    | None => None
    end.
Proof.
  induction l1 as [|key rest IH]; intros v; simpl; [reflexivity|].
  destruct (optional_get h v key); [apply IH | reflexivity].
Qed.

Lemma resolve_segments_missing (h : heap) (keys : list string) :
  resolve_segments h VUndefined keys = Some VUndefined.
Proof. induction keys as [|key rest IH]; simpl; [reflexivity | exact IH]. Qed.

(** X26. Paths resolve segment by segment and never throw on a missing
    link. Resolving [p.q] is resolving [p] and then [q] from what was
    found; and from [undefined] or [null] every path resolves to
    [undefined], so a missing or null link anywhere along a path yields
    [undefined]. *)
Theorem resolvePath_composes (h : heap) (v : value) (p q : string) :
  resolvePath h v (String.append p (String "." q)) =
    match resolvePath h v p with
    | Some x => resolvePath h x q
    | None => None
    end /\
  resolvePath h VUndefined p = Some VUndefined /\
  resolvePath h VNull p = Some VUndefined.
Proof.
  unfold resolvePath. split; [|split].
  - rewrite split_dot_append. apply resolve_segments_app.
  - apply resolve_segments_missing.
  - pose proof (split_dot_nonempty p) as Hne.
    destruct (split_dot p) as [|key rest]; [congruence|].
    simpl. apply resolve_segments_missing.
Qed.

(** ** The baseline snapshot *)

Lemma refs_from_mono (n n' : nat) (v : value) :
  n <= n' -> refs_from n' v -> refs_from n v.
Proof. intros Hle. destruct v; simpl; try tauto. lia. Qed.

Lemma cell_from_mono (n n' : nat) (c : cell) :
  n <= n' -> cell_from n' c -> cell_from n c.
Proof.
  intros Hle. destruct c as [items|props]; simpl; intros H;
    induction H; constructor; try assumption;
    eapply refs_from_mono; eassumption.
Qed.

Lemma cells_from_mono (n n' : nat) (ext : list cell) :
  n <= n' -> Forall (cell_from n') ext -> Forall (cell_from n) ext.
Proof.
  intros Hle H. induction H; constructor; [|assumption].
  eapply cell_from_mono; eassumption.
Qed.

Lemma clone_items_apart (cv : heap -> value -> option (completion value * heap)) :
  (forall h v, clones_apart refs_from h (cv h v)) ->
  forall items h,
    clones_apart (fun n l => Forall (refs_from n) l) h (clone_items cv h items).
Proof.
  intros Hcv. induction items as [|x rest IH]; intros h; simpl.
  - exists []. rewrite app_nil_r. repeat split; constructor.
  - specialize (Hcv h (if is_undefined x then VNull else x)).
    destruct (cv h (if is_undefined x then VNull else x)) as [[[x'|e] h1]|];
      simpl in *; [| |exact I].
    + destruct Hcv as (ext1 & -> & Hc1 & Hx).
      specialize (IH (h ++ ext1)).
      destruct (clone_items cv (h ++ ext1) rest) as [[[rest'|e] h2]|];
        simpl in *; [| |exact I].
      * destruct IH as (ext2 & -> & Hc2 & Hr).
        rewrite length_app in Hc2, Hr.
        exists (ext1 ++ ext2). rewrite app_assoc. split; [reflexivity|]. split.
        -- apply Forall_app. split; [exact Hc1|].
           eapply cells_from_mono; [|exact Hc2]. lia.
        -- constructor; [exact Hx|].
           eapply List.Forall_impl; [|exact Hr].
           intros v. apply refs_from_mono. lia.
      * destruct IH as (ext2 & -> & Hc2 & _). rewrite length_app in Hc2.
        exists (ext1 ++ ext2). rewrite app_assoc. split; [reflexivity|]. split.
        -- apply Forall_app. split; [exact Hc1|].
           eapply cells_from_mono; [|exact Hc2]. lia.
        -- exact I.
    + destruct Hcv as (ext1 & -> & Hc1 & _).
      exists ext1. repeat split. exact Hc1.
Qed.

Lemma clone_props_apart (cv : heap -> value -> option (completion value * heap)) :
  (forall h v, clones_apart refs_from h (cv h v)) ->
  forall props h,
    clones_apart (fun n o => Forall (fun p => refs_from n (snd p)) o) h
      (clone_props cv h props).
Proof.
  intros Hcv. induction props as [|[k x] rest IH]; intros h; simpl.
  - exists []. rewrite app_nil_r. repeat split; constructor.
  - destruct (is_undefined x); [apply IH|].
    specialize (Hcv h x).
    destruct (cv h x) as [[[x'|e] h1]|]; simpl in *; [| |exact I].
    + destruct Hcv as (ext1 & -> & Hc1 & Hx).
      specialize (IH (h ++ ext1)).
      destruct (clone_props cv (h ++ ext1) rest) as [[[rest'|e] h2]|];
        simpl in *; [| |exact I].
      * destruct IH as (ext2 & -> & Hc2 & Hr).
        rewrite length_app in Hc2, Hr.
        exists (ext1 ++ ext2). rewrite app_assoc. split; [reflexivity|]. split.
        -- apply Forall_app. split; [exact Hc1|].
           eapply cells_from_mono; [|exact Hc2]. lia.
        -- constructor; [exact Hx|].
           eapply List.Forall_impl; [|exact Hr].
           intros p. apply refs_from_mono. lia.
      * destruct IH as (ext2 & -> & Hc2 & _). rewrite length_app in Hc2.
        exists (ext1 ++ ext2). rewrite app_assoc. split; [reflexivity|]. split.
        -- apply Forall_app. split; [exact Hc1|].
           eapply cells_from_mono; [|exact Hc2]. lia.
        -- exact I.
    + destruct Hcv as (ext1 & -> & Hc1 & _).
      exists ext1. repeat split. exact Hc1.
Qed.

Lemma cloneValue_apart (fuel : nat) :
  forall stack h v, clones_apart refs_from h (cloneValue fuel stack h v).
Proof.
  induction fuel as [|fuel IH]; intros stack h v; [exact I|].
  assert (Hsame : forall c : completion value,
            match c with Normal a => refs_from (length h) a | Abrupt _ => True end ->
            clones_apart refs_from h (Some (c, h))).
  { intros c Hc. exists []. rewrite app_nil_r. repeat split; [constructor | exact Hc]. }
  destruct v as [| | b | [n| |neg|text] | s | l]; simpl;
    try (exists []; rewrite app_nil_r; split; [reflexivity|];
         split; [constructor | exact I]).
  destruct (existsb (Nat.eqb l) stack); [apply Hsame; exact I|].
  destruct (h !! l) as [[items|props]|]; [| |exact I].
  - pose proof (clone_items_apart (cloneValue fuel (l :: stack))
                  (IH (l :: stack)) items h) as Hitems.
    destruct (clone_items (cloneValue fuel (l :: stack)) h items)
      as [[[items'|e] h1]|]; simpl in *; [| |exact I].
    + destruct Hitems as (ext & -> & Hc & Hr).
      exists (ext ++ [CArr items']). rewrite app_assoc. split; [reflexivity|].
      split.
      * apply Forall_app. split; [exact Hc|]. constructor; [exact Hr | constructor].
      * rewrite length_app. lia.
    + destruct Hitems as (ext & -> & Hc & _). exists ext. repeat split. exact Hc.
  - pose proof (clone_props_apart (cloneValue fuel (l :: stack))
                  (IH (l :: stack)) props h) as Hprops.
    destruct (clone_props (cloneValue fuel (l :: stack)) h props)
      as [[[props'|e] h1]|]; simpl in *; [| |exact I].
    + destruct Hprops as (ext & -> & Hc & Hr).
      exists (ext ++ [CObj props']). rewrite app_assoc. split; [reflexivity|].
      split.
      * apply Forall_app. split; [exact Hc|]. constructor; [exact Hr | constructor].
      * rewrite length_app. lia.
    + destruct Hprops as (ext & -> & Hc & _). exists ext. repeat split. exact Hc.
Qed.

(** X27. The snapshot shares nothing with the state. When [deepClone]
    returns, the heap it leaves is the old heap followed by new cells, so
    no existing array or object has been touched; the new cells and the
    cloned state refer only to new cells. A later change inside an array
    or object of the state can therefore not reach the baseline. *)
Theorem deepClone_shares_nothing (fuel : nat) (h h' : heap) (o o' : obj)
    (Hclone : deepClone fuel h o = Some (Normal o', h')) :
  exists ext,
    h' = h ++ ext /\
    Forall (cell_from (length h)) ext /\
    Forall (fun p => refs_from (length h) (snd p)) o'.
Proof.
  pose proof (clone_props_apart (cloneValue fuel []) (cloneValue_apart fuel []) o h)
    as H.
  unfold deepClone in Hclone. rewrite Hclone in H. exact H.
Qed.

Lemma deepClone_shares_nothing_witness :
  deepClone 3 groups_heap (state hydrated_user) =
    Some (Normal [("groups", VRef 1)],
          groups_heap ++ [CArr [VStr "group-1"; VStr "group-2"]]) /\
  exists ext,
    groups_heap ++ [CArr [VStr "group-1"; VStr "group-2"]] = groups_heap ++ ext /\
    Forall (cell_from (length groups_heap)) ext /\
    Forall (fun p => refs_from (length groups_heap) (snd p)) [("groups", VRef 1)].
Proof.
  split; [reflexivity|].
  exact (deepClone_shares_nothing 3 groups_heap _ (state hydrated_user) _ eq_refl).
Defined.

Lemma obj_set_Forall (P : value -> Prop) (o : obj) (k : string) (v : value) :
  P v ->
  Forall (fun p => P (snd p)) o ->
  Forall (fun p => P (snd p)) (obj_set o k v).
Proof.
  intros Hv Ho. induction Ho as [|[k0 v0] o Hx Ho IH]; simpl.
  - constructor; [exact Hv | constructor].
  - destruct (String.eqb k0 k); constructor; simpl; assumption.
Qed.

Lemma obj_get_Forall (P : value -> Prop) (o : obj) (k : string) :
  Forall (fun p => P (snd p)) o ->
  obj_get o k <> VUndefined -> P (obj_get o k).
Proof.
  intros Ho. unfold obj_get. induction Ho as [|[k0 v0] o Hx Ho IH]; simpl.
  - congruence.
  - destruct (String.eqb k0 k); [intros _; exact Hx | exact IH].
Qed.

Lemma ValueInitializer_hydrates_scalars (data : obj) (entries : ModelFields) :
  Forall (fun p => is_json_scalar (snd p) = true \/ snd p = VUndefined) data ->
  forall m : Model,
    Forall (fun p => is_json_scalar (snd p) = true) (state m) ->
    Forall (fun p => is_json_scalar (snd p) = true)
      (state (ValueInitializer_initialize entries m data true)).
Proof.
  intros Hdata. induction entries as [|[fieldKey bf] rest IH]; intros m Hm; simpl.
  - exact Hm.
  - destruct (compute (options (bound_field bf))); [apply IH; exact Hm|].
    destruct (is_undefined (getInitialValue _ _ _)) eqn:Eu; [apply IH; exact Hm|].
    apply IH. cbn [state with_own with_state].
    apply (obj_set_Forall (fun v => is_json_scalar v = true)); [|exact Hm].
    assert (Hdef : obj_get data (replace_dollar fieldKey) <> VUndefined).
    { intros Hu. rewrite Hu in Eu. discriminate. }
    rewrite getInitialValue_explicit by exact Hdef.
    destruct (obj_get_Forall
                (fun v => is_json_scalar v = true \/ v = VUndefined)
                data (replace_dollar fieldKey) Hdata Hdef) as [Hs | Hu];
      [exact Hs | contradiction].
Qed.

Lemma deepClone_scalars (fuel : nat) (h h' : heap) (o : obj)
    (c : completion obj) :
  Forall (fun p => is_json_scalar (snd p) = true) o ->
  deepClone fuel h o = Some (c, h') ->
  c = Normal o /\ h' = h.
Proof.
  unfold deepClone. intros Ho. revert c h'.
  induction Ho as [|[k x] o Hx Ho IH]; intros c h'; simpl.
  - intros H. injection H as <- <-. split; reflexivity.
  - simpl in Hx.
    assert (Hclone : cloneValue fuel [] h x = None \/
                     cloneValue fuel [] h x = Some (Normal x, h)).
    { destruct fuel; [left; reflexivity|]. right.
      destruct x as [| | |[n| | |]| |]; try discriminate; reflexivity. }
    destruct x as [| | |[n| | |]| |]; try discriminate; cbn [is_undefined];
      (destruct Hclone as [-> | ->]; [discriminate|]);
      (destruct (clone_props (cloneValue fuel []) h o) as [[[rest'|e] h2]|];
       [| |discriminate]);
      try (destruct (IH _ _ eq_refl) as [Hc _]; discriminate Hc);
      destruct (IH _ _ eq_refl) as [Hc ->]; injection Hc as ->;
      intros H; injection H as <- <-; split; reflexivity.
Qed.

Lemma deepClone_scalars_returns (fuel : nat) (h : heap) (o : obj) :
  Forall (fun p => is_json_scalar (snd p) = true) o ->
  deepClone (S fuel) h o = Some (Normal o, h).
Proof.
  unfold deepClone. induction 1 as [|[k x] o Hx Ho IH]; [reflexivity|].
  simpl in Hx. cbn [clone_props].
  assert (Hclone : cloneValue (S fuel) [] h x = Some (Normal x, h))
    by (destruct x as [| | |[n| | |]| |]; try discriminate; reflexivity).
  assert (Hu : is_undefined x = false)
    by (destruct x; try discriminate; reflexivity).
  rewrite Hu, Hclone, IH. reflexivity.
Qed.

(** X28. The baseline of a model hydrated from scalars. When the data
    given to [from] holds only booleans, finite numbers, strings, [null]
    and [undefined] (no [NaN] and no infinity, which the snapshot would
    turn into [null]), the baseline recorded for the model is its state,
    entry for entry, and the heap is left as it was; and [from] does
    return such a model whenever validation passes. *)
Theorem from_scalar_baseline (reg : AssociationRegistry) (h : heap)
    (fuel : nat) (fields : ModelFields) (schema : list string) (ctx : value)
    (data : obj)
    (Hdata : Forall (fun p => is_json_scalar (snd p) = true \/ snd p = VUndefined)
               data) :
  (forall m h',
     Model_from reg h fuel fields schema ctx data = Some (Normal tt, m, h') ->
     initialState m = state m /\ h' = h) /\
  (forall validated,
     ValidationInitializer_initialize reg h fields schema
       (ValueInitializer_initialize fields
          (with_initializer (new_Model ctx) InitFrom) data true)
     = Some (Normal tt, validated) ->
     Model_from reg h (S fuel) fields schema ctx data =
     Some (Normal tt, with_initialState validated (state validated), h)).
Proof.
  pose proof (ValueInitializer_hydrates_scalars data fields Hdata
                (with_initializer (new_Model ctx) InitFrom)
                (List.Forall_nil _)) as Hscalars.
  split.
  - intros m h' Hfrom.
    unfold Model_from in Hfrom. cbv zeta in Hfrom.
    set (instance := with_initializer (new_Model ctx) InitFrom) in *.
    set (seeded := ValueInitializer_initialize fields instance data true) in *.
    destruct (ValidationInitializer_initialize reg h fields schema seeded)
      as [[[[]|e] validated]|] eqn:Ev; try discriminate.
    apply ValidationInitializer_loop_frame in Ev.
    destruct Ev as (_ & Hs2 & _ & _).
    rewrite <- Hs2 in Hscalars.
    unfold MODEL_INITIAL_STATE in Hfrom.
    destruct (deepClone fuel h (state validated)) as [[c h1]|] eqn:Ec;
      [|discriminate].
    destruct (deepClone_scalars fuel h h1 (state validated) c Hscalars Ec)
      as [-> ->].
    injection Hfrom as <- <-. split; reflexivity.
  - intros validated Hv.
    unfold Model_from. cbv zeta. rewrite Hv.
    apply ValidationInitializer_loop_frame in Hv.
    destruct Hv as (_ & Hs2 & _ & _).
    rewrite <- Hs2 in Hscalars.
    unfold MODEL_INITIAL_STATE.
    rewrite (deepClone_scalars_returns fuel h (state validated) Hscalars).
    reflexivity.
Qed.

Lemma from_scalar_baseline_witness :
  exists m,
    Model_from empty_registry [] 3 user_instance_fields ["id"; "name"; "lastName"]
      VUndefined [("name", VStr "Martin"); ("lastName", VNull)]
    = Some (Normal tt, m, []) /\
    initialState m = [("name", VStr "Martin"); ("lastName", VNull)] /\
    deepClone 1 [] [("limit", VNum (Infinity false))]
      = Some (Normal [("limit", VNull)], []) /\
    initialState m = state m.
Proof.
  eexists. split; [reflexivity|]. split; [reflexivity|]. split; [reflexivity|].
  refine (proj1 (proj1 (from_scalar_baseline empty_registry [] 3
                          user_instance_fields ["id"; "name"; "lastName"] VUndefined
                          [("name", VStr "Martin"); ("lastName", VNull)] _)
                   _ _ eq_refl)).
  repeat constructor.
Defined.
